(** * The SQL guardrail of chatbot_service.py

    A shallow embedding of [validate_sql] and of the string and regular
    expression primitives of Python it relies on, followed by the
    properties of the validator.

    Data model.  A Python [str] is a [string]: one [ascii] per code point,
    which covers the code points below 256 (Latin-1).  The schema snapshot,
    a [Dict[str, Dict[str, str]]], is a [gmap string (gmap string string)].
    A Python call that may raise returns an [option]; [None] stands for the
    exception. *)

From Stdlib Require Import Ascii String List Bool Arith Lia.
From stdpp Require Import base option gmap strings pretty.

Local Open Scope string_scope.
Local Open Scope list_scope.

(** ** Python string primitives *)

Module PyStr.

(** Code point of a character. *)
Definition ord (c : ascii) : nat := nat_of_ascii c.

(** [c.lower()] on one Latin-1 code point: A-Z and the accented capitals
    192-222 (the multiplication sign 215 apart) move up by 32. *)
Definition lower_char (c : ascii) : ascii :=
  let n := ord c in
  if (((65 <=? n) && (n <=? 90))
      || ((192 <=? n) && (n <=? 222) && negb (n =? 215)))%nat
  then ascii_of_nat (n + 32) else c.

(** [s.lower()] *)
Fixpoint lower (s : string) : string :=
  match s with
  | EmptyString => EmptyString
  | String c s' => String (lower_char c) (lower s')
  end.

(** [s.startswith(prefix)] *)
Fixpoint startswith (s prefix : string) {struct prefix} : bool :=
  match prefix with
  | EmptyString => true
  | String p prefix' =>
      match s with
      | EmptyString => false
      | String c s' => if Ascii.eqb c p then startswith s' prefix' else false
      end
  end.

(** [sub in s] for two strings: [sub] starts at some position of [s]. *)
Fixpoint str_in (sub s : string) : bool :=
  if startswith s sub then true
  else match s with
       | EmptyString => false
       | String _ s' => str_in sub s'
       end.

(** [s.split(sep)] for a separator of one character: the pieces between the
    separators, never an empty list. *)
Fixpoint split (sep : ascii) (s : string) : list string :=
  match s with
  | EmptyString => [EmptyString]
  | String c s' =>
      if Ascii.eqb c sep then EmptyString :: split sep s'
      else match split sep s' with
           | [] => [String c EmptyString]
           | piece :: pieces => String c piece :: pieces
           end
  end.

(** [l[-1]]: the last element, an IndexError on the empty list. *)
Fixpoint index_last {A : Type} (l : list A) : option A :=
  match l with
  | [] => None
  | [x] => Some x
  | _ :: l' => index_last l'
  end.

(** Whitespace as [str.strip] and the regular expression class [\s] see it
    below code point 256. *)
Definition isspace (c : ascii) : bool :=
  let n := ord c in
  (((9 <=? n) && (n <=? 13)) || ((28 <=? n) && (n <=? 32))
   || (n =? 133) || (n =? 160))%nat.

(** [s.lstrip()] *)
Fixpoint lstrip (s : string) : string :=
  match s with
  | EmptyString => EmptyString
  | String c s' => if isspace c then lstrip s' else s
  end.

(** [s.rstrip()] *)
Fixpoint rstrip (s : string) : string :=
  match s with
  | EmptyString => EmptyString
  | String c s' =>
      match rstrip s' with
      | EmptyString => if isspace c then EmptyString else String c EmptyString
      | r => String c r
      end
  end.

(** [s.strip()] *)
Definition strip (s : string) : string := rstrip (lstrip s).

(** The first [n] characters of [s]. *)
Fixpoint take (n : nat) (s : string) : string :=
  match n, s with
  | S n', String c s' => String c (take n' s')
  | _, _ => EmptyString
  end.

End PyStr.

Import PyStr.

Example lower_ex : lower "SELECT * From T;" = "select * from t;".
Proof. reflexivity. Qed.

Example split_ex : split "." "main.t." = ["main"; "t"; ""].
Proof. reflexivity. Qed.

Example strip_ex : strip "  select 1 " = "select 1".
Proof. reflexivity. Qed.

(** ** Python regular expressions: the fragment of [re] the service uses

    A pattern is kept as the text the source hands to [re], and compiled by
    [compile] as [re] reads it.  A backslash followed by a punctuation
    character, a backslash included, is that character taken literally;
    a backslash followed by [b], [w], [s] or [d] is the word boundary or the
    character class.  Syntax outside the fragment ([*], [?], [|], ranges,
    anchors) does not compile. *)

Module Re.

(** Members of a bracketed set. *)
Inductive item : Type :=
| I_char (c : ascii)
| I_word
| I_space
| I_digit.

(** What consumes exactly one character. *)
Inductive atom : Type :=
| A_lit (c : ascii)
| A_any
| A_in (items : list item).

Inductive regex : Type :=
| Eps
| Atom (a : atom)
| Plus (a : atom)
| Bound
| Group (r : regex)
| Cat (r1 r2 : regex).

(** *** Character classes below code point 256 *)

Definition isdigit (c : ascii) : bool :=
  let n := ord c in ((48 <=? n) && (n <=? 57))%nat.

(** The class [\w] of a [str] pattern: alphanumeric or underscore. *)
Definition isword (c : ascii) : bool :=
  let n := ord c in
  (((48 <=? n) && (n <=? 57)) || ((65 <=? n) && (n <=? 90)) || (n =? 95)
   || ((97 <=? n) && (n <=? 122)) || (n =? 170) || (n =? 178) || (n =? 179)
   || (n =? 181) || (n =? 185) || (n =? 186) || ((188 <=? n) && (n <=? 190))
   || ((192 <=? n) && (n <=? 214)) || ((216 <=? n) && (n <=? 246))
   || (248 <=? n))%nat.

Definition item_matches (i : item) (c : ascii) : bool :=
  match i with
  | I_char c' => Ascii.eqb c c'
  | I_word => isword c
  | I_space => isspace c
  | I_digit => isdigit c
  end.

Definition atom_matches (a : atom) (c : ascii) : bool :=
  match a with
  | A_lit c' => Ascii.eqb c c'
  | A_any => negb (Ascii.eqb c "010")
  | A_in items => existsb (fun i => item_matches i c) items
  end.

(** *** Compiling a pattern *)

Inductive mode : Type :=
| Normal
| Escape
| InSet (items : list item)
| InSetEscape (items : list item).

(** The parser reads one character at a time.  [stack] holds the sequences
    of the groups still open, [cur] the sequence of the innermost one, and
    [pend] the atom read last, which a following [+] may still repeat. *)
Record pstate : Type := mk_pstate
  { stack : list regex; cur : regex; pend : option atom; pmode : mode }.

Definition commit (st : pstate) : regex :=
  match pend st with
  | Some a => Cat (cur st) (Atom a)
  | None => cur st
  end.

Definition push_atom (st : pstate) (a : atom) : pstate :=
  mk_pstate (stack st) (commit st) (Some a) Normal.

Definition push_node (st : pstate) (r : regex) : pstate :=
  mk_pstate (stack st) (Cat (commit st) r) None Normal.

Definition isalnum_ascii (c : ascii) : bool :=
  let n := ord c in
  (((48 <=? n) && (n <=? 57)) || ((65 <=? n) && (n <=? 90))
   || ((97 <=? n) && (n <=? 122)))%nat.

Definition step (st : pstate) (c : ascii) : option pstate :=
  match pmode st with
  | Normal =>
      if Ascii.eqb c "\" then Some (mk_pstate (stack st) (cur st) (pend st) Escape)
      else if Ascii.eqb c "[" then
        Some (mk_pstate (stack st) (commit st) None (InSet []))
      else if Ascii.eqb c "(" then
        Some (mk_pstate (commit st :: stack st) Eps None Normal)
      else if Ascii.eqb c ")" then
        match stack st with
        | [] => None
        | outer :: rest => Some (mk_pstate rest (Cat outer (Group (commit st))) None Normal)
        end
      else if Ascii.eqb c "+" then
        match pend st with
        | Some a => Some (mk_pstate (stack st) (Cat (cur st) (Plus a)) None Normal)
        | None => None
        end
      else if Ascii.eqb c "." then Some (push_atom st A_any)
      else if existsb (Ascii.eqb c) ["*"; "?"; "|"; "{"; "^"; "$"]%char then None
      else Some (push_atom st (A_lit c))
  | Escape =>
      let st := mk_pstate (stack st) (cur st) (pend st) Normal in
      if Ascii.eqb c "b" then Some (push_node st Bound)
      else if Ascii.eqb c "w" then Some (push_atom st (A_in [I_word]))
      else if Ascii.eqb c "s" then Some (push_atom st (A_in [I_space]))
      else if Ascii.eqb c "d" then Some (push_atom st (A_in [I_digit]))
      else if isalnum_ascii c then None
      else Some (push_atom st (A_lit c))
  | InSet items =>
      if Ascii.eqb c "]" then
        match items with
        | [] => None
        | _ => Some (push_atom st (A_in items))
        end
      else if Ascii.eqb c "\" then
        Some (mk_pstate (stack st) (cur st) (pend st) (InSetEscape items))
      else if existsb (Ascii.eqb c) ["-"; "^"; "["]%char then None
      else Some (mk_pstate (stack st) (cur st) (pend st) (InSet (items ++ [I_char c])))
  | InSetEscape items =>
      let add i := Some (mk_pstate (stack st) (cur st) (pend st) (InSet (items ++ [i]))) in
      if Ascii.eqb c "w" then add I_word
      else if Ascii.eqb c "s" then add I_space
      else if Ascii.eqb c "d" then add I_digit
      else if isalnum_ascii c then None
      else add (I_char c)
  end.

Fixpoint steps (st : pstate) (pattern : string) : option pstate :=
  match pattern with
  | EmptyString => Some st
  | String c pattern' =>
      match step st c with
      | Some st' => steps st' pattern'
      | None => None
      end
  end.

(** [re.compile(pattern)]; [None] is [re.error] or a pattern outside the
    fragment. *)
Definition compile (pattern : string) : option regex :=
  match steps (mk_pstate [] Eps None Normal) pattern with
  | Some st =>
      match pmode st, stack st with
      | Normal, [] => Some (commit st)
      | _, _ => None
      end
  | None => None
  end.

(** *** Matching

    A backtracking matcher in continuation-passing style.  The position in
    the subject is the character before it, if any, and the text that remains.
    A continuation receives the position reached and the texts captured so far. *)

Definition result : Type := string * list string.
Definition cont : Type := option ascii -> string -> list string -> option result.

Definition word_before (prev : option ascii) : bool :=
  match prev with Some c => isword c | None => false end.

Definition word_after (s : string) : bool :=
  match s with String c _ => isword c | EmptyString => false end.

(** [a+], greedy: as many characters as possible, one fewer each time the
    rest of the pattern fails. *)
Fixpoint m_plus (a : atom) (k : cont) (prev : option ascii) (s : string)
    (caps : list string) : option result :=
  match s with
  | EmptyString => None
  | String c s' =>
      if atom_matches a c then
        match m_plus a k (Some c) s' caps with
        | Some res => Some res
        | None => k (Some c) s' caps
        end
      else None
  end.

Fixpoint m (r : regex) (k : cont) (prev : option ascii) (s : string)
    (caps : list string) : option result :=
  match r with
  | Eps => k prev s caps
  | Atom a =>
      match s with
      | String c s' => if atom_matches a c then k (Some c) s' caps else None
      | EmptyString => None
      end
  | Plus a => m_plus a k prev s caps
  | Bound => if xorb (word_before prev) (word_after s) then k prev s caps else None
  | Group r' =>
      m r' (fun prev' s' caps' =>
              k prev' s' (caps' ++ [take (String.length s - String.length s') s]))
        prev s caps
  | Cat r1 r2 => m r1 (m r2 k) prev s caps
  end.

(** A match of [r] that starts at this very position: the text after it and
    the captures. *)
Definition match_here (r : regex) (prev : option ascii) (s : string) : option result :=
  m r (fun _ s' caps => Some (s', caps)) prev s [].

(** The leftmost match at or after this position. *)
Fixpoint search_from (r : regex) (prev : option ascii) (s : string) : option result :=
  match match_here r prev s with
  | Some res => Some res
  | None =>
      match s with
      | EmptyString => None
      | String c s' => search_from r (Some c) s'
      end
  end.

(** What [findall] reports for one match: the text of the group when the
    pattern has one, the whole match when it has none. *)
Definition reported (s : string) (res : result) : string :=
  match snd res with
  | [] => take (String.length s - String.length (fst res)) s
  | g :: _ => g
  end.

(** The matches from left to right, none overlapping another: after a match
    of [n] characters the next [n - 1] positions are passed over. *)
Fixpoint findall_from (r : regex) (skip : nat) (prev : option ascii) (s : string)
    : list string :=
  match skip with
  | S skip' =>
      match s with
      | EmptyString => []
      | String c s' => findall_from r skip' (Some c) s'
      end
  | O =>
      match match_here r prev s with
      | Some res =>
          reported s res ::
          match s with
          | EmptyString => []
          | String c s' =>
              findall_from r (Nat.pred (String.length s - String.length (fst res)))
                (Some c) s'
          end
      | None =>
          match s with
          | EmptyString => []
          | String c s' => findall_from r 0 (Some c) s'
          end
      end
  end.

(** [re.search(pattern, s)]: inside, [None] is Python's [None] (no match). *)
Definition search (pattern s : string) : option (option result) :=
  r ← compile pattern; Some (search_from r None s).

(** [re.findall(pattern, s)] *)
Definition findall (pattern s : string) : option (list string) :=
  r ← compile pattern; Some (findall_from r 0 None s).

End Re.

(** ** The validator of chatbot_service.py *)

Module Chatbot.

(** The schema snapshot: table name to (column name to declared type). *)
Abbreviation schema_t := (gmap string (gmap string string)).

Definition ALLOWED_TABLES : list string :=
  ["london_bike_data"; "nyc_biking_data"; "joint_bike_data"].

Definition agg_keywords : list string :=
  ["group by"; "count("; "avg("; "sum("; "median("; "percentile"; "histogram("].

(** [any(k in sql_lc for k in agg_keywords)] *)
Definition is_aggregate (sql_lc : string) : bool :=
  existsb (fun k => str_in k sql_lc) agg_keywords.

Definition banned : list string :=
  ["insert"; "update"; "delete"; "create"; "drop"; "alter"; "attach"; "pragma";
   "copy"; "truncate"].

(** The pattern the source builds for one keyword: the raw f-string keeps
    both backslashes on each side. *)
Definition banned_pattern (kw : string) : string := "\\b" +:+ kw +:+ "\\b".

(** [any(re.search(pattern of kw, sql_lc) for kw in kws)]: the keywords are
    tried in order and the first match ends the search. *)
Fixpoint any_banned (kws : list string) (sql_lc : string) : option bool :=
  match kws with
  | [] => Some false
  | kw :: kws' =>
      found ← Re.search (banned_pattern kw) sql_lc;
      match found with
      | Some _ => Some true
      | None => any_banned kws' sql_lc
      end
  end.

Definition from_pattern : string := "\\bfrom\\s+([\\w\\.]+)".
Definition join_pattern : string := "\\bjoin\\s+([\\w\\.]+)".

(** The loop over the extracted names: the first one that is no key of the
    schema, if there is one. *)
Fixpoint first_not_in (tables : list string) (schema : schema_t) : option string :=
  match tables with
  | [] => None
  | t :: tables' =>
      match schema !! t with
      | None => Some t
      | Some _ => first_not_in tables' schema
      end
  end.

Definition MSG_MULTIPLE : string := "Multiple statements are not allowed.".
Definition MSG_READ_ONLY : string := "Only read-only SELECT is allowed.".
Definition MSG_SELECT : string := "Query must start with SELECT.".
Definition MSG_TABLE (t : string) : string := "Table " +:+ t +:+ " is not allowed.".
Definition MSG_LIMIT : string := "Please include a LIMIT for non-aggregate queries.".

(** [validate_sql(sql, schema)]; [None] would be an exception. *)
Definition validate_sql (sql : string) (schema : schema_t) : option (bool * string) :=
  let sql_lc := lower sql in
  if str_in ";" sql_lc then Some (false, MSG_MULTIPLE)
  else
    any_banned banned sql_lc ≫= fun hit : bool =>
    if hit then Some (false, MSG_READ_ONLY)
    else if negb (startswith sql_lc "select") then Some (false, MSG_SELECT)
    else
      from_tables ← Re.findall from_pattern sql_lc;
      join_tables ← Re.findall join_pattern sql_lc;
      tables ← mapM (fun t => index_last (split "." t)) (from_tables ++ join_tables);
      match first_not_in tables schema with
      | Some t => Some (false, MSG_TABLE t)
      | None =>
          if negb (is_aggregate sql_lc) && negb (str_in "limit" sql_lc)
          then Some (false, MSG_LIMIT)
          else Some (true, "")
      end.

(** A snapshot as [get_schema_snapshot] returns it when the three allowed
    tables exist in the database. *)
Definition SCHEMA : schema_t :=
  {[ "london_bike_data" :=
       {[ "start_station_name" := "VARCHAR"; "start_date" := "TIMESTAMP" ]};
     "nyc_biking_data" :=
       {[ "start_time" := "TIMESTAMP"; "end_time" := "TIMESTAMP" ]};
     "joint_bike_data" :=
       {[ "city" := "VARCHAR" ]} ]}.

End Chatbot.

Import Chatbot.

(** ** Regular expressions with flags and the star

    [extract_sql] hands [re] a pattern with [*] and the lazy [*?], under the
    flags IGNORECASE and DOTALL.  [ReX] reads that larger fragment; atoms,
    sets and character classes are those of [Re]. *)

Module ReX.

Record flags : Type := mk_flags { ignorecase : bool; dotall : bool }.

Inductive regex : Type :=
| Eps
| Atom (a : Re.atom)
| Plus (a : Re.atom)
| Star (a : Re.atom)
| LazyStar (a : Re.atom)
| Bound
| Group (r : regex)
| Cat (r1 r2 : regex).

(** The atom read last and the quantifier it has met so far. *)
Inductive pending : Type :=
| P_none
| P_one (a : Re.atom)
| P_plus (a : Re.atom)
| P_star (a : Re.atom).

Record pstate : Type := mk_pstate
  { stack : list regex; cur : regex; pend : pending; pmode : Re.mode }.

Definition commit (st : pstate) : regex :=
  match pend st with
  | P_none => cur st
  | P_one a => Cat (cur st) (Atom a)
  | P_plus a => Cat (cur st) (Plus a)
  | P_star a => Cat (cur st) (Star a)
  end.

Definition push_atom (st : pstate) (a : Re.atom) : pstate :=
  mk_pstate (stack st) (commit st) (P_one a) Re.Normal.

Definition push_node (st : pstate) (r : regex) : pstate :=
  mk_pstate (stack st) (Cat (commit st) r) P_none Re.Normal.

Definition step (st : pstate) (c : ascii) : option pstate :=
  match pmode st with
  | Re.Normal =>
      if Ascii.eqb c "\" then Some (mk_pstate (stack st) (cur st) (pend st) Re.Escape)
      else if Ascii.eqb c "[" then
        Some (mk_pstate (stack st) (commit st) P_none (Re.InSet []))
      else if Ascii.eqb c "(" then
        Some (mk_pstate (commit st :: stack st) Eps P_none Re.Normal)
      else if Ascii.eqb c ")" then
        match stack st with
        | [] => None
        | outer :: rest =>
            Some (mk_pstate rest (Cat outer (Group (commit st))) P_none Re.Normal)
        end
      else if Ascii.eqb c "+" then
        match pend st with
        | P_one a => Some (mk_pstate (stack st) (cur st) (P_plus a) Re.Normal)
        | _ => None
        end
      else if Ascii.eqb c "*" then
        match pend st with
        | P_one a => Some (mk_pstate (stack st) (cur st) (P_star a) Re.Normal)
        | _ => None
        end
      else if Ascii.eqb c "?" then
        match pend st with
        | P_star a =>
            Some (mk_pstate (stack st) (Cat (cur st) (LazyStar a)) P_none Re.Normal)
        | _ => None
        end
      else if Ascii.eqb c "." then Some (push_atom st Re.A_any)
      else if existsb (Ascii.eqb c) ["|"; "{"; "^"; "$"]%char then None
      else Some (push_atom st (Re.A_lit c))
  | Re.Escape =>
      let st := mk_pstate (stack st) (cur st) (pend st) Re.Normal in
      if Ascii.eqb c "b" then Some (push_node st Bound)
      else if Ascii.eqb c "w" then Some (push_atom st (Re.A_in [Re.I_word]))
      else if Ascii.eqb c "s" then Some (push_atom st (Re.A_in [Re.I_space]))
      else if Ascii.eqb c "d" then Some (push_atom st (Re.A_in [Re.I_digit]))
      else if Re.isalnum_ascii c then None
      else Some (push_atom st (Re.A_lit c))
  | Re.InSet items =>
      if Ascii.eqb c "]" then
        match items with
        | [] => None
        | _ => Some (push_atom st (Re.A_in items))
        end
      else if Ascii.eqb c "\" then
        Some (mk_pstate (stack st) (cur st) (pend st) (Re.InSetEscape items))
      else if existsb (Ascii.eqb c) ["-"; "^"; "["]%char then None
      else Some (mk_pstate (stack st) (cur st) (pend st)
                   (Re.InSet (items ++ [Re.I_char c])))
  | Re.InSetEscape items =>
      let add i :=
        Some (mk_pstate (stack st) (cur st) (pend st) (Re.InSet (items ++ [i]))) in
      if Ascii.eqb c "w" then add Re.I_word
      else if Ascii.eqb c "s" then add Re.I_space
      else if Ascii.eqb c "d" then add Re.I_digit
      else if Re.isalnum_ascii c then None
      else add (Re.I_char c)
  end.

Fixpoint steps (st : pstate) (pattern : string) : option pstate :=
  match pattern with
  | EmptyString => Some st
  | String c pattern' =>
      match step st c with
      | Some st' => steps st' pattern'
      | None => None
      end
  end.

(** [re.compile(pattern)] *)
Definition compile (pattern : string) : option regex :=
  match steps (mk_pstate [] Eps P_none Re.Normal) pattern with
  | Some st =>
      match pmode st, stack st with
      | Re.Normal, [] => Some (commit st)
      | _, _ => None
      end
  | None => None
  end.

(** Two characters are the same, up to case under IGNORECASE. *)
Definition char_eq (f : flags) (c c' : ascii) : bool :=
  if ignorecase f then Ascii.eqb (lower_char c) (lower_char c') else Ascii.eqb c c'.

Definition item_matches (f : flags) (i : Re.item) (c : ascii) : bool :=
  match i with
  | Re.I_char c' => char_eq f c c'
  | _ => Re.item_matches i c
  end.

(** Under DOTALL the dot takes the newline too. *)
Definition atom_matches (f : flags) (a : Re.atom) (c : ascii) : bool :=
  match a with
  | Re.A_lit c' => char_eq f c c'
  | Re.A_any => dotall f || negb (Ascii.eqb c "010")
  | Re.A_in items => existsb (fun i => item_matches f i c) items
  end.

Section Matching.

Variable f : flags.

Fixpoint m_plus (a : Re.atom) (k : Re.cont) (prev : option ascii) (s : string)
    (caps : list string) : option Re.result :=
  match s with
  | EmptyString => None
  | String c s' =>
      if atom_matches f a c then
        match m_plus a k (Some c) s' caps with
        | Some res => Some res
        | None => k (Some c) s' caps
        end
      else None
  end.

(** [a*], greedy: the longest run first, down to none. *)
Fixpoint m_star (a : Re.atom) (k : Re.cont) (prev : option ascii) (s : string)
    (caps : list string) : option Re.result :=
  match s with
  | EmptyString => k prev s caps
  | String c s' =>
      if atom_matches f a c then
        match m_star a k (Some c) s' caps with
        | Some res => Some res
        | None => k prev s caps
        end
      else k prev s caps
  end.

(** [a*?], lazy: no character first, one more each time the rest of the
    pattern fails. *)
Fixpoint m_lazy (a : Re.atom) (k : Re.cont) (prev : option ascii) (s : string)
    (caps : list string) : option Re.result :=
  match k prev s caps with
  | Some res => Some res
  | None =>
      match s with
      | EmptyString => None
      | String c s' => if atom_matches f a c then m_lazy a k (Some c) s' caps else None
      end
  end.

Fixpoint m (r : regex) (k : Re.cont) (prev : option ascii) (s : string)
    (caps : list string) : option Re.result :=
  match r with
  | Eps => k prev s caps
  | Atom a =>
      match s with
      | String c s' => if atom_matches f a c then k (Some c) s' caps else None
      | EmptyString => None
      end
  | Plus a => m_plus a k prev s caps
  | Star a => m_star a k prev s caps
  | LazyStar a => m_lazy a k prev s caps
  | Bound =>
      if xorb (Re.word_before prev) (Re.word_after s) then k prev s caps else None
  | Group r' =>
      m r' (fun prev' s' caps' =>
              k prev' s' (caps' ++ [take (String.length s - String.length s') s]))
        prev s caps
  | Cat r1 r2 => m r1 (m r2 k) prev s caps
  end.

Definition match_here (r : regex) (prev : option ascii) (s : string)
    : option Re.result :=
  m r (fun _ s' caps => Some (s', caps)) prev s [].

Fixpoint search_from (r : regex) (prev : option ascii) (s : string)
    : option Re.result :=
  match match_here r prev s with
  | Some res => Some res
  | None =>
      match s with
      | EmptyString => None
      | String c s' => search_from r (Some c) s'
      end
  end.

End Matching.

(** [re.search(pattern, s, flags)] *)
Definition search (pattern s : string) (f : flags) : option (option Re.result) :=
  r ← compile pattern; Some (search_from f r None s).

(** [match.group(n)] for [n >= 1]: the text of the n-th group, an IndexError
    when the pattern has no such group. *)
Definition group (mo : Re.result) (n : nat) : option string :=
  snd mo !! Nat.pred n.

End ReX.

(** ** The rest of the service: extracting the query, running it, answering *)

Module Frame.

(** A pandas DataFrame as the service uses it: the column labels and the
    rows, in order. *)
Record frame (Row : Type) : Type := mk_frame
  { columns : list string; rows : list Row }.

Arguments mk_frame {Row} _ _.
Arguments columns {Row} _.
Arguments rows {Row} _.

(** [len(df)]: the number of rows. *)
Definition len {Row : Type} (df : frame Row) : nat := length (rows df).

(** [df.empty]: one of the two axes has length zero. *)
Definition empty {Row : Type} (df : frame Row) : bool :=
  (len df =? 0)%nat || (length (columns df) =? 0)%nat.

(** [df.head(n)]: the first [n] rows; for a negative [n] all rows but the
    last [-n]. *)
Definition head {Row : Type} (n : Z) (df : frame Row) : list Row :=
  if (0 <=? n)%Z then firstn (Z.to_nat n) (rows df)
  else firstn (len df - Z.to_nat (- n)) (rows df).

End Frame.

Module Service.

(** [c in chars] for a character. *)
Fixpoint char_in (c : ascii) (chars : string) : bool :=
  match chars with
  | EmptyString => false
  | String d chars' => Ascii.eqb c d || char_in c chars'
  end.

(** [s.rstrip(chars)]: [s] without its trailing characters that occur in
    [chars]. *)
Fixpoint rstrip_chars (s chars : string) : string :=
  match s with
  | EmptyString => EmptyString
  | String c s' =>
      match rstrip_chars s' chars with
      | EmptyString => if char_in c chars then EmptyString else String c EmptyString
      | r => String c r
      end
  end.

(** [sep.join(l)] *)
Fixpoint join (sep : string) (l : list string) : string :=
  match l with
  | [] => ""
  | [x] => x
  | x :: l' => x +:+ sep +:+ join sep l'
  end.

Definition fence_pattern : string := "```sql\\s*(.*?)```".

(** [re.IGNORECASE | re.DOTALL] *)
Definition fence_flags : ReX.flags := ReX.mk_flags true true.

(** [extract_sql(text)] *)
Definition extract_sql (text : string) : option string :=
  ReX.search fence_pattern text fence_flags ≫= fun fence : option Re.result =>
  match fence with
  | Some mo => g ← ReX.group mo 1; Some (rstrip_chars (strip g) ";")
  | None => Some (rstrip_chars (strip text) ";")
  end.

(** [summarize_df(df)] *)
Definition summarize_df {Row : Type} (df : Frame.frame Row) : string :=
  if Frame.empty df then "No rows returned."
  else
    let cols := join ", " (Frame.columns df) in
    "Returned " +:+ pretty (Frame.len df) +:+ " rows. Columns: " +:+ cols +:+ ".".

Record AskRequest : Type := mk_request { question : string; max_rows : Z }.

Record AskResponse (Row : Type) : Type := mk_response
  { answer : string; sql : string; data_preview : list Row; columns : list string }.

Arguments mk_response {Row} _ _ _ _.
Arguments answer {Row} _.
Arguments sql {Row} _.
Arguments data_preview {Row} _.
Arguments columns {Row} _.

(** How a request ends: the response, or an HTTPException with its status
    code and detail. *)
Inductive outcome (Row : Type) : Type :=
| Responds (resp : AskResponse Row)
| HTTPException (status_code : nat) (detail : string).

Arguments Responds {Row} _.
Arguments HTTPException {Row} _ _.

(** What the client returns for a chat completion: the choices, each with
    its message ([None] when the choice carries none), and in a message the
    content ([None] when the model returned no text). *)
Record Message : Type := mk_message { content : option string }.
Record Choice : Type := mk_choice { message : option Message }.
Record Completion : Type := mk_completion { choices : list Choice }.

(** [completion.choices[0].message.content]: an IndexError when there is no
    choice, an AttributeError when the first choice has no message. *)
Definition first_content (c : Completion) : option (option string) :=
  choices c !! 0 ≫= fun ch : Choice =>
  message ch ≫= fun msg : Message =>
  Some (content msg).

Section Ask.

Variable Row : Type.

(** The hosted model: for a question, the completion returned, or the text
    of the exception the call raised. *)
Variable completion : string -> string + Completion.

(** The database behind [run_sql]: for a query, the frame fetched, or the
    text of the exception raised. *)
Variable run_sql : string -> string + Frame.frame Row.

(** [ask(body)], with the schema snapshot of the process.  [None] would be
    an exception that [ask] does not catch. *)
Definition ask (schema : schema_t) (body : AskRequest) : option (outcome Row) :=
  if String.eqb (strip (question body)) "" then
    Some (HTTPException 400 "Question is empty.")
  else
    match completion (question body) with
    | inl e => Some (HTTPException 500 ("LLM call failed: " +:+ e))
    | inr answered =>
        first_content answered ≫= fun text : option string =>
        extract_sql (default "" text) ≫= fun query : string =>
        validate_sql query schema ≫= fun v : bool * string =>
        let (ok, reason) := v in
        if negb ok then Some (HTTPException 400 ("SQL rejected: " +:+ reason))
        else
          match run_sql query with
          | inl e => Some (HTTPException 400 ("SQL execution failed: " +:+ e))
          | inr df =>
              let preview := Frame.head (Z.min (max_rows body) 100) df in
              let answer_text := summarize_df df in
              Some (Responds (mk_response answer_text query preview (Frame.columns df)))
          end
    end.

End Ask.

End Service.

Import Service.

(** ** Loading the schema snapshot *)

Module Snapshot.

Section Database.

(** The metadata catalog of the database: how many tables carry a name, and
    the (column name, data type) rows of a table in ordinal order. *)
Variable table_count : string -> nat.
Variable table_columns : string -> list (string * string).

(** [{c: t for c, t in rows}]: a later row for the same column wins. *)
Definition dict_of_rows (rows : list (string * string)) : gmap string string :=
  fold_left (fun d row => <[fst row := snd row]> d) rows ∅.

(** The loop of [get_schema_snapshot] over the tables still to visit. *)
Fixpoint snapshot_loop (tables : list string) (snapshot : schema_t) : schema_t :=
  match tables with
  | [] => snapshot
  | table :: tables' =>
      if (table_count table =? 0)%nat then snapshot_loop tables' snapshot
      else snapshot_loop tables'
             (<[table := dict_of_rows (table_columns table)]> snapshot)
  end.

(** [get_schema_snapshot()] *)
Definition get_schema_snapshot : schema_t := snapshot_loop ALLOWED_TABLES ∅.

End Database.

End Snapshot.

(** ** Vocabulary of the properties *)

Section Vocabulary.

(** The query is not turned away by any of the first four rules. *)
Definition passes_first_four (sql : string) (schema : schema_t) : Prop :=
  validate_sql sql schema <> Some (false, MSG_MULTIPLE) /\
  validate_sql sql schema <> Some (false, MSG_READ_ONLY) /\
  validate_sql sql schema <> Some (false, MSG_SELECT) /\
  forall t, validate_sql sql schema <> Some (false, MSG_TABLE t).

(** The statement-shape rule as the specification words it: among the
    queries the first two rules let through, the must-start-with-SELECT
    rejection is returned exactly when the trimmed, lowered text does not
    begin with [select]. *)
Definition select_rule_trims : Prop :=
  forall (sql : string) (schema : schema_t),
    validate_sql sql schema <> Some (false, MSG_MULTIPLE) ->
    validate_sql sql schema <> Some (false, MSG_READ_ONLY) ->
    (validate_sql sql schema = Some (false, MSG_SELECT)
     <-> startswith (lower (strip sql)) "select" = false).

(** A decimal numeral. *)
Fixpoint all_digits (n : string) : bool :=
  match n with
  | EmptyString => true
  | String c n' => Re.isdigit c && all_digits n'
  end.

(** The tables of [SCHEMA] with other columns and types. *)
Definition SCHEMA_other_columns : schema_t :=
  {[ "london_bike_data" := {[ "bike_id" := "BIGINT" ]};
     "nyc_biking_data" := ∅;
     "joint_bike_data" := {[ "city" := "INTEGER"; "rides" := "BIGINT" ]} ]}.

End Vocabulary.

(** ** Facts about the string primitives *)

(** Appending unfolds under [simpl] when its first argument starts with a
    constructor. *)
#[local] Arguments String.append !_ _ / : simpl nomatch.

Section StringFacts.

Lemma append_nil_r (s : string) : s +:+ "" = s.
Proof. induction s as [|c s IH]; simpl; [reflexivity | now rewrite IH]. Qed.

Lemma append_assoc (a b c : string) : (a +:+ b) +:+ c = a +:+ (b +:+ c).
Proof. induction a as [|x a IH]; simpl; [reflexivity | now rewrite IH]. Qed.

Lemma append_length (a b : string) :
  String.length (a +:+ b) = String.length a + String.length b.
Proof. induction a as [|x a IH]; simpl; [reflexivity | now rewrite IH]. Qed.

Lemma take_append (a b : string) : take (String.length a) (a +:+ b) = a.
Proof. induction a as [|x a IH]; simpl; [now destruct b | now rewrite IH]. Qed.

Lemma startswith_append (p post : string) : startswith (p +:+ post) p = true.
Proof.
  induction p as [|c p IH]; simpl; [reflexivity|].
  now rewrite Ascii.eqb_refl.
Qed.

Lemma startswith_inv (p s : string) :
  startswith s p = true -> exists post, s = p +:+ post.
Proof.
  revert s; induction p as [|c p IH]; intros s H; simpl in *.
  - now exists s.
  - destruct s as [|d s]; [discriminate|].
    destruct (Ascii.eqb d c) eqn:E; [|discriminate].
    apply Ascii.eqb_eq in E; subst d.
    destruct (IH _ H) as [post ->]. now exists post.
Qed.

Lemma str_in_unfold (sub s : string) :
  str_in sub s =
  if startswith s sub then true
  else match s with EmptyString => false | String _ s' => str_in sub s' end.
Proof. now destruct s. Qed.

(** Python's [in] on strings is the substring relation. *)
Lemma str_in_spec (sub s : string) :
  str_in sub s = true <-> exists pre post, s = pre +:+ sub +:+ post.
Proof.
  split.
  - induction s as [|c s IH]; rewrite str_in_unfold.
    + destruct (startswith "" sub) eqn:E; [|discriminate]. intros _.
      apply startswith_inv in E as [post E]. now exists "", post.
    + destruct (startswith (String c s) sub) eqn:E.
      * intros _. apply startswith_inv in E as [post E]. now exists "", post.
      * intros H. destruct (IH H) as (pre & post & ->).
        now exists (String c pre), post.
  - intros (pre & post & ->).
    induction pre as [|c pre IH]; rewrite str_in_unfold; simpl.
    + now rewrite startswith_append.
    + rewrite IH. now destruct (startswith _ sub).
Qed.

Lemma str_in_false_append_inv (sub a b : string) :
  str_in sub (a +:+ b) = false -> str_in sub a = false.
Proof.
  intros H. destruct (str_in sub a) eqn:E; [|reflexivity].
  apply str_in_spec in E as (pre & post & ->).
  assert (str_in sub ((pre +:+ sub +:+ post) +:+ b) = true) as H'; [|congruence].
  apply str_in_spec. exists pre, (post +:+ b).
  now rewrite !append_assoc.
Qed.

Lemma lower_append (a b : string) : lower (a +:+ b) = lower a +:+ lower b.
Proof. induction a as [|c a IH]; simpl; [reflexivity | now rewrite IH]. Qed.

Lemma lower_char_idem (c : ascii) : lower_char (lower_char c) = lower_char c.
Proof. destruct c as [[] [] [] [] [] [] [] []]; reflexivity. Qed.

Lemma lower_idem (s : string) : lower (lower s) = lower s.
Proof.
  induction s as [|c s IH]; simpl; [reflexivity|].
  now rewrite lower_char_idem, IH.
Qed.

(** Lowering neither makes nor removes a semicolon. *)
Lemma lower_char_semicolon (c : ascii) : lower_char c = ";"%char <-> c = ";"%char.
Proof.
  destruct c as [[] [] [] [] [] [] [] []]; vm_compute; split; congruence.
Qed.

End StringFacts.

(** ** The validator never raises

    Every pattern of the source compiles, and [split] never returns an empty
    list, so each step of [validate_sql] has a value.  [verdict] is the
    validator with those values filled in. *)

Section Totality.

Definition from_re : Re.regex :=
  Eval vm_compute in default Re.Eps (Re.compile from_pattern).
Definition join_re : Re.regex :=
  Eval vm_compute in default Re.Eps (Re.compile join_pattern).
Definition banned_re (kw : string) : Re.regex :=
  default Re.Eps (Re.compile (banned_pattern kw)).

Lemma compile_from : Re.compile from_pattern = Some from_re.
Proof. reflexivity. Qed.

Lemma compile_join : Re.compile join_pattern = Some join_re.
Proof. reflexivity. Qed.

Lemma compile_banned (kw : string) :
  In kw banned -> Re.compile (banned_pattern kw) = Some (banned_re kw).
Proof.
  unfold banned; simpl; intros H.
  repeat (destruct H as [<- | H]; [reflexivity|]). contradiction.
Qed.

Definition matched (found : option Re.result) : bool :=
  match found with Some _ => true | None => false end.

Definition banned_hit (kws : list string) (sql_lc : string) : bool :=
  existsb (fun kw => matched (Re.search_from (banned_re kw) None sql_lc)) kws.

Lemma any_banned_eq (kws : list string) (sql_lc : string) :
  (forall kw, In kw kws -> In kw banned) ->
  any_banned kws sql_lc = Some (banned_hit kws sql_lc).
Proof.
  induction kws as [|kw kws IH]; intros Hin; [reflexivity|].
  simpl. unfold Re.search.
  rewrite compile_banned by (apply Hin; now left). simpl.
  destruct (Re.search_from (banned_re kw) None sql_lc); simpl; [reflexivity|].
  apply IH. intros kw' H. apply Hin. now right.
Qed.

Lemma split_not_nil (sep : ascii) (s : string) : split sep s <> [].
Proof.
  induction s as [|c s IH]; simpl; [discriminate|].
  destruct (Ascii.eqb c sep); [discriminate|].
  now destruct (split sep s).
Qed.

Lemma index_last_is_Some {A : Type} (l : list A) : l <> [] -> is_Some (index_last l).
Proof.
  induction l as [|x l IH]; intros H; [contradiction|].
  destruct l as [|y l]; [now eexists|]. apply IH. discriminate.
Qed.

(** [t.split(".")[-1]] with its value. *)
Definition last_part (t : string) : string :=
  default "" (index_last (split "." t)).

Lemma index_last_split (t : string) :
  index_last (split "." t) = Some (last_part t).
Proof.
  unfold last_part.
  destruct (index_last_is_Some (split "." t) (split_not_nil _ _)) as [x ->].
  reflexivity.
Qed.

Lemma mapM_total {A B : Type} (f : A -> option B) (g : A -> B) (l : list A) :
  (forall x, f x = Some (g x)) -> mapM f l = Some (map g l).
Proof.
  intros Hf. induction l as [|x l IH]; [reflexivity|].
  simpl. rewrite Hf, IH. reflexivity.
Qed.

(** The table names the validator looks up, in order. *)
Definition tables_of (sql_lc : string) : list string :=
  map last_part
    (Re.findall_from from_re 0 None sql_lc ++ Re.findall_from join_re 0 None sql_lc).

Definition verdict (sql : string) (schema : schema_t) : bool * string :=
  let sql_lc := lower sql in
  if str_in ";" sql_lc then (false, MSG_MULTIPLE)
  else if banned_hit banned sql_lc then (false, MSG_READ_ONLY)
  else if negb (startswith sql_lc "select") then (false, MSG_SELECT)
  else match first_not_in (tables_of sql_lc) schema with
       | Some t => (false, MSG_TABLE t)
       | None =>
           if negb (is_aggregate sql_lc) && negb (str_in "limit" sql_lc)
           then (false, MSG_LIMIT)
           else (true, "")
       end.

Lemma validate_sql_eq (sql : string) (schema : schema_t) :
  validate_sql sql schema = Some (verdict sql schema).
Proof.
  unfold validate_sql, verdict.
  destruct (str_in ";" (lower sql)); [reflexivity|].
  rewrite any_banned_eq by auto.
  unfold mbind, option_bind; cbv beta iota.
  destruct (banned_hit banned (lower sql)); [reflexivity|].
  destruct (startswith (lower sql) "select"); [|reflexivity].
  unfold Re.findall. rewrite compile_from, compile_join.
  unfold mbind, option_bind; cbv beta iota.
  rewrite (mapM_total _ last_part) by apply index_last_split.
  fold (tables_of (lower sql)).
  destruct (first_not_in (tables_of (lower sql)) schema); [reflexivity|].
  now destruct (is_aggregate (lower sql)), (str_in "limit" (lower sql)).
Qed.

End Totality.

(** ** Shapes of the verdict *)

Section VerdictFacts.

Lemma MSG_TABLE_head (t : string) :
  exists rest, MSG_TABLE t = String "T" rest.
Proof. unfold MSG_TABLE. simpl. eauto. Qed.

Lemma passes_first_four_inv (sql : string) (schema : schema_t) :
  passes_first_four sql schema ->
  str_in ";" (lower sql) = false /\
  banned_hit banned (lower sql) = false /\
  startswith (lower sql) "select" = true /\
  first_not_in (tables_of (lower sql)) schema = None.
Proof.
  unfold passes_first_four. rewrite validate_sql_eq. unfold verdict.
  intros (H1 & H2 & H3 & H4).
  destruct (str_in ";" (lower sql)); [congruence|].
  destruct (banned_hit banned (lower sql)); [congruence|].
  destruct (startswith (lower sql) "select"); [|simpl in *; congruence].
  destruct (first_not_in (tables_of (lower sql)) schema) as [t|]; [|auto].
  now destruct (H4 t).
Qed.

Lemma passes_first_four_intro (sql : string) (schema : schema_t) :
  str_in ";" (lower sql) = false ->
  banned_hit banned (lower sql) = false ->
  startswith (lower sql) "select" = true ->
  first_not_in (tables_of (lower sql)) schema = None ->
  passes_first_four sql schema.
Proof.
  intros H1 H2 H3 H4. unfold passes_first_four.
  rewrite validate_sql_eq. unfold verdict. rewrite H1, H2, H3, H4. simpl.
  destruct (negb _ && negb _); repeat split; try discriminate.
  all: intros t; destruct (MSG_TABLE_head t) as [rest ->]; discriminate.
Qed.

Lemma first_not_in_dom (tables : list string) (s1 s2 : schema_t) :
  dom s1 = dom s2 -> first_not_in tables s1 = first_not_in tables s2.
Proof.
  intros Hdom. induction tables as [|t tables IH]; [reflexivity|]. simpl.
  destruct (s1 !! t) as [cols1|] eqn:E1, (s2 !! t) as [cols2|] eqn:E2; auto.
  - apply not_elem_of_dom in E2. rewrite <- Hdom in E2.
    apply not_elem_of_dom in E2. congruence.
  - apply not_elem_of_dom in E1. rewrite Hdom in E1.
    apply not_elem_of_dom in E1. congruence.
Qed.

End VerdictFacts.

(** ** Matching is local

    Text added after the subject changes no match, provided its first
    character is no word character and fits no atom of the pattern, and the
    character every match has to begin with does not occur in it. *)

(** No atom of [r] accepts [c]. *)
Fixpoint rejects (r : Re.regex) (c : ascii) : bool :=
  match r with
  | Re.Eps | Re.Bound => true
  | Re.Atom a | Re.Plus a => negb (Re.atom_matches a c)
  | Re.Group r' => rejects r' c
  | Re.Cat r1 r2 => rejects r1 c && rejects r2 c
  end.

(** The literal character every match of [r] begins with, where the shape
    of [r] shows one. *)
Fixpoint first_lit (r : Re.regex) : option ascii :=
  match r with
  | Re.Atom (Re.A_lit c) | Re.Plus (Re.A_lit c) => Some c
  | Re.Group r' => first_lit r'
  | Re.Cat Re.Eps r2 => first_lit r2
  | Re.Cat r1 _ => first_lit r1
  | _ => None
  end.

Lemma take_append_le (n : nat) (t x : string) :
  n <= String.length t -> take n (t +:+ x) = take n t.
Proof.
  revert t; induction n as [|n IH]; intros [|c t] H; simpl in *; try lia.
  - now destruct x.
  - reflexivity.
  - rewrite IH by lia. reflexivity.
Qed.

Lemma m_first_lit (r : Re.regex) (b : ascii) :
  first_lit r = Some b ->
  forall k prev s caps,
    startswith s (String b "") = false -> Re.m r k prev s caps = None.
Proof.
  induction r as [|a|a| |r IH|r1 IH1 r2 IH2]; simpl; intros Hb k prev s caps Hs;
    try discriminate.
  - destruct a as [c| |items]; try discriminate. injection Hb as ->.
    destruct s as [|d s]; [reflexivity|]. simpl in *.
    now destruct (Ascii.eqb d b).
  - destruct a as [c| |items]; try discriminate. injection Hb as ->.
    destruct s as [|d s]; [reflexivity|]. simpl in *.
    now destruct (Ascii.eqb d b).
  - now apply IH.
  - destruct r1; try (now apply IH1); now apply IH2.
Qed.

Section Suffix.

Variable c0 : ascii.
Variable x' : string.
Let x : string := String c0 x'.

Hypothesis c0_not_word : Re.isword c0 = false.

Definition lift (found : option Re.result) : option Re.result :=
  match found with
  | Some (rest, caps) => Some (rest +:+ String c0 x', caps)
  | None => None
  end.

(** [kx] does on the longer subject what [k] does on the shorter one. *)
Definition ext (k kx : Re.cont) : Prop :=
  forall prev t caps, kx prev (t +:+ x) caps = lift (k prev t caps).

Lemma m_plus_ext (a : Re.atom) (k kx : Re.cont) :
  Re.atom_matches a c0 = false -> ext k kx -> ext (Re.m_plus a k) (Re.m_plus a kx).
Proof.
  intros Ha Hk prev t caps. revert prev.
  induction t as [|c t IH]; intros prev; simpl.
  - now rewrite Ha.
  - destruct (Re.atom_matches a c); [|reflexivity].
    rewrite IH. destruct (Re.m_plus a k (Some c) t caps) as [[rest caps']|]; simpl.
    + reflexivity.
    + apply Hk.
Qed.

Lemma m_ext (r : Re.regex) :
  rejects r c0 = true ->
  forall k kx, ext k kx -> ext (Re.m r k) (Re.m r kx).
Proof.
  induction r as [|a|a| |r IH|r1 IH1 r2 IH2]; simpl; intros Hr k kx Hk.
  - exact Hk.
  - apply negb_true_iff in Hr. intros prev [|c t] caps; simpl.
    + now rewrite Hr.
    + destruct (Re.atom_matches a c); [apply Hk | reflexivity].
  - apply negb_true_iff in Hr. now apply m_plus_ext.
  - intros prev t caps.
    assert (Re.word_after (t +:+ x) = Re.word_after t) as ->.
    { destruct t; simpl; [exact c0_not_word | reflexivity]. }
    destruct (xorb _ _); [apply Hk | reflexivity].
  - intros prev t caps. apply (IH Hr). intros prev1 t1 caps1.
    rewrite Hk, !append_length.
    replace (String.length t + String.length x - (String.length t1 + String.length x))
      with (String.length t - String.length t1) by lia.
    rewrite take_append_le by lia. reflexivity.
  - apply andb_true_iff in Hr as [Hr1 Hr2]. now apply IH1, IH2.
Qed.

Lemma match_here_ext (r : Re.regex) (prev : option ascii) (t : string) :
  rejects r c0 = true ->
  Re.match_here r prev (t +:+ x) = lift (Re.match_here r prev t).
Proof.
  intros Hr. unfold Re.match_here. now apply (m_ext r Hr).
Qed.

Variable b : ascii.
Hypothesis b_not_in_x : str_in (String b "") x = false.

Lemma no_match_starts (r : Re.regex) (y : string) (prev : option ascii) :
  first_lit r = Some b -> str_in (String b "") y = false ->
  Re.search_from r prev y = None /\ forall skip, Re.findall_from r skip prev y = [].
Proof.
  intros Hb. revert prev. induction y as [|c y IH]; intros prev Hy.
  - assert (Re.match_here r prev "" = None) as E
        by now apply (m_first_lit r b Hb).
    split; [simpl; now rewrite E|]. intros [|skip]; simpl; now rewrite ?E.
  - rewrite str_in_unfold in Hy.
    destruct (startswith (String c y) (String b "")) eqn:Hc; [discriminate|].
    assert (Re.match_here r prev (String c y) = None) as E
        by now apply (m_first_lit r b Hb).
    destruct (IH (Some c) Hy) as [IHs IHf].
    split; [simpl; now rewrite E|]. intros [|skip]; simpl; now rewrite ?E.
Qed.

Lemma search_from_ext (r : Re.regex) (t : string) (prev : option ascii) :
  rejects r c0 = true -> first_lit r = Some b ->
  Re.search_from r prev (t +:+ x) = lift (Re.search_from r prev t).
Proof.
  intros Hr Hb. revert prev. induction t as [|c t IH]; intros prev.
  - change ("" +:+ x) with x.
    rewrite (proj1 (no_match_starts r x prev Hb b_not_in_x)).
    simpl. unfold Re.match_here. now rewrite (m_first_lit r b Hb).
  - change (String c t +:+ x) with (String c (t +:+ x)).
    simpl. change (String c (t +:+ x)) with (String c t +:+ x).
    rewrite (match_here_ext r prev (String c t) Hr).
    destruct (Re.match_here r prev (String c t)) as [[rest caps]|]; simpl.
    + reflexivity.
    + apply IH.
Qed.

Lemma reported_ext (t rest : string) (caps : list string) :
  Re.reported (t +:+ x) (rest +:+ x, caps) = Re.reported t (rest, caps).
Proof.
  unfold Re.reported; cbn [fst snd]. destruct caps; [|reflexivity].
  rewrite !append_length.
  replace (String.length t + String.length x - (String.length rest + String.length x))
    with (String.length t - String.length rest) by lia.
  apply take_append_le. lia.
Qed.

Lemma findall_from_cons (r : Re.regex) (prev : option ascii) (c : ascii) (s : string) :
  Re.findall_from r 0 prev (String c s) =
  match Re.match_here r prev (String c s) with
  | Some res =>
      Re.reported (String c s) res ::
      Re.findall_from r
        (Nat.pred (String.length (String c s) - String.length (fst res))) (Some c) s
  | None => Re.findall_from r 0 (Some c) s
  end.
Proof. reflexivity. Qed.

Lemma findall_from_ext (r : Re.regex) (t : string) (skip : nat) (prev : option ascii) :
  rejects r c0 = true -> first_lit r = Some b ->
  Re.findall_from r skip prev (t +:+ x) = Re.findall_from r skip prev t.
Proof.
  intros Hr Hb. revert skip prev. induction t as [|c t IH]; intros skip prev.
  - change ("" +:+ x) with x.
    rewrite (proj2 (no_match_starts r x prev Hb b_not_in_x)).
    destruct skip; simpl; [|reflexivity].
    unfold Re.match_here. now rewrite (m_first_lit r b Hb).
  - destruct skip as [|skip]; [|apply IH].
    change (String c t +:+ x) with (String c (t +:+ x)).
    rewrite !findall_from_cons.
    change (String c (t +:+ x)) with (String c t +:+ x).
    rewrite (match_here_ext r prev (String c t) Hr).
    destruct (Re.match_here r prev (String c t)) as [[rest caps]|];
      cbn [lift fst]; [|apply IH].
    fold x. rewrite reported_ext, IH, !append_length.
    replace (String.length (String c t) + String.length x
             - (String.length rest + String.length x))
      with (String.length (String c t) - String.length rest) by lia.
    reflexivity.
Qed.

End Suffix.

(** ** Adding a limit clause *)

Section LimitClause.

Lemma str_in_char_cons (b c : ascii) (y : string) :
  str_in (String b "") (String c y) = Ascii.eqb c b || str_in (String b "") y.
Proof. rewrite str_in_unfold. simpl. now destruct (Ascii.eqb c b). Qed.

Lemma str_in_char_append (b : ascii) (y z : string) :
  str_in (String b "") (y +:+ z) = str_in (String b "") y || str_in (String b "") z.
Proof.
  induction y as [|c y IH].
  - reflexivity.
  - change (String c y +:+ z) with (String c (y +:+ z)).
    rewrite !str_in_char_cons, IH. now rewrite orb_assoc.
Qed.

Lemma digit_char_facts (c : ascii) :
  Re.isdigit c = true ->
  lower_char c = c /\ Ascii.eqb c "\" = false /\ Ascii.eqb c ";" = false.
Proof.
  destruct c as [[] [] [] [] [] [] [] []]; vm_compute; intros H;
    try discriminate H; repeat split.
Qed.

Lemma digits_facts (n : string) :
  all_digits n = true ->
  lower n = n /\ str_in "\" n = false /\ str_in ";" n = false.
Proof.
  induction n as [|c n IH]; [easy|].
  intros [Hc Hn]%andb_true_iff.
  destruct (digit_char_facts c Hc) as (Hl & Hb & Hs).
  destruct (IH Hn) as (IHl & IHb & IHs).
  rewrite !str_in_char_cons, Hb, Hs, IHb, IHs.
  cbn [lower]. rewrite Hl, IHl. easy.
Qed.

Lemma banned_re_shape (kw : string) :
  In kw banned ->
  rejects (banned_re kw) " " = true /\ first_lit (banned_re kw) = Some "\"%char.
Proof.
  unfold banned; simpl; intros H.
  repeat (destruct H as [<- | H]; [split; reflexivity|]). contradiction.
Qed.

Lemma matched_lift (c0 : ascii) (x' : string) (found : option Re.result) :
  matched (lift c0 x' found) = matched found.
Proof. now destruct found as [[rest caps]|]. Qed.

(** The text added: a blank, then anything free of backslashes. *)
Variable x' : string.
Hypothesis no_backslash : str_in "\" x' = false.

Lemma blank_no_backslash : str_in "\" (String " " x') = false.
Proof. rewrite str_in_char_cons. exact no_backslash. Qed.

Lemma banned_hit_suffix (kws : list string) (t : string) :
  (forall kw, In kw kws -> In kw banned) ->
  banned_hit kws (t +:+ String " " x') = banned_hit kws t.
Proof.
  induction kws as [|kw kws IH]; intros Hin; [reflexivity|].
  unfold banned_hit in *. simpl.
  destruct (banned_re_shape kw) as [Hr Hb]; [apply Hin; now left|].
  rewrite (search_from_ext " " x' eq_refl "\" blank_no_backslash (banned_re kw) t None Hr Hb).
  rewrite matched_lift, IH; [reflexivity|].
  intros kw' H. apply Hin. now right.
Qed.

Lemma tables_of_suffix (t : string) :
  tables_of (t +:+ String " " x') = tables_of t.
Proof.
  unfold tables_of.
  now rewrite !(findall_from_ext " " x' eq_refl "\" blank_no_backslash) by easy.
Qed.

End LimitClause.

(** ** How far the two doubled backslashes reach

    Every pattern of the validator begins with a literal backslash.  A query
    without that character is never met by the keyword rule nor by the
    table rule. *)

Lemma banned_hit_needs_backslash (kws : list string) (sql_lc : string) :
  (forall kw, In kw kws -> In kw banned) ->
  str_in "\" sql_lc = false -> banned_hit kws sql_lc = false.
Proof.
  intros Hin Hs. unfold banned_hit.
  induction kws as [|kw kws IH]; [reflexivity|]. simpl.
  destruct (banned_re_shape kw) as [_ Hb]; [apply Hin; now left|].
  rewrite (proj1 (no_match_starts "\" (banned_re kw) sql_lc None Hb Hs)).
  apply IH. intros kw' H. apply Hin. now right.
Qed.

Lemma tables_of_needs_backslash (sql_lc : string) :
  str_in "\" sql_lc = false -> tables_of sql_lc = [].
Proof.
  intros Hs. unfold tables_of.
  now rewrite (proj2 (no_match_starts "\" from_re sql_lc None eq_refl Hs)),
    (proj2 (no_match_starts "\" join_re sql_lc None eq_refl Hs)).
Qed.

Lemma keyword_and_table_rules_silent (sql : string) (schema : schema_t) :
  str_in "\" (lower sql) = false ->
  validate_sql sql schema <> Some (false, MSG_READ_ONLY) /\
  forall t, validate_sql sql schema <> Some (false, MSG_TABLE t).
Proof.
  intros Hs. rewrite validate_sql_eq. unfold verdict.
  rewrite (banned_hit_needs_backslash banned _ (fun _ H => H) Hs),
    (tables_of_needs_backslash _ Hs).
  cbn [first_not_in].
  assert (forall t (v : bool * string),
             snd v = MSG_MULTIPLE \/ snd v = MSG_SELECT \/ snd v = MSG_LIMIT \/ snd v = "" ->
             Some v <> Some (false, MSG_TABLE t)) as Hno.
  { intros t v Hv [= ->]. cbn [snd] in Hv.
    destruct (MSG_TABLE_head t) as [rest E]. rewrite E in Hv.
    destruct Hv as [Hv|[Hv|[Hv|Hv]]]; discriminate Hv. }
  destruct (str_in ";" (lower sql)).
  { split; [discriminate | intros t; apply Hno; cbn; auto]. }
  destruct (negb (startswith (lower sql) "select")).
  { split; [discriminate | intros t; apply Hno; cbn; auto]. }
  destruct (negb _ && negb _);
    (split; [discriminate | intros t; apply Hno; cbn; auto]).
Qed.

Lemma is_aggregate_false (sql_lc : string) :
  (forall marker, In marker agg_keywords ->
                  ~ exists pre post, sql_lc = pre +:+ marker +:+ post) ->
  is_aggregate sql_lc = false.
Proof.
  intros H. unfold is_aggregate.
  destruct (existsb _ agg_keywords) eqn:E; [|reflexivity].
  apply existsb_exists in E as (marker & Hin & Hsub).
  apply str_in_spec in Hsub. now destruct (H marker Hin).
Qed.

Lemma startswith_suffix (s p x : string) :
  startswith s p = true -> startswith (s +:+ x) p = true.
Proof.
  intros [post ->]%startswith_inv.
  rewrite append_assoc. apply startswith_append.
Qed.

(** With a limit clause added at its end, a query that the first four rules
    let through is accepted. *)
Lemma limit_clause_accepted (sql n : string) (schema : schema_t) :
  passes_first_four sql schema ->
  all_digits n = true ->
  validate_sql (sql +:+ " limit " +:+ n) schema = Some (true, "").
Proof.
  intros (H1 & H2 & H3 & H4)%passes_first_four_inv Hn.
  destruct (digits_facts n Hn) as (Hl & Hb & Hs).
  set (x' := "limit " +:+ n).
  assert (str_in "\" x' = false) as Hb'.
  { unfold x'. now rewrite str_in_char_append, Hb. }
  assert (lower (sql +:+ " limit " +:+ n) = lower sql +:+ String " " x') as E.
  { rewrite !lower_append, Hl. reflexivity. }
  rewrite validate_sql_eq. unfold verdict. rewrite E.
  assert (str_in ";" (lower sql +:+ String " " x') = false) as ->.
  { unfold x'. now rewrite str_in_char_append, H1, str_in_char_cons,
      str_in_char_append, Hs. }
  rewrite (banned_hit_suffix x' Hb' banned (lower sql)) by auto.
  rewrite H2, (startswith_suffix _ _ _ H3), (tables_of_suffix x' Hb'), H4.
  assert (str_in "limit" (lower sql +:+ String " " x') = true) as ->.
  { apply str_in_spec. exists (lower sql +:+ " "), (" " +:+ n).
    unfold x'. now rewrite !append_assoc. }
  now rewrite andb_false_r.
Qed.

(** ** The names reported come from the lowered text *)

Section Characters.

Variable P : ascii -> Prop.

(** Every character of the string satisfies [P]. *)
Fixpoint chars_in (s : string) : Prop :=
  match s with
  | EmptyString => True
  | String c s' => P c /\ chars_in s'
  end.

Lemma chars_in_take (n : nat) (s : string) : chars_in s -> chars_in (take n s).
Proof.
  revert s; induction n as [|n IH]; intros [|c s]; simpl; try easy.
  intros [Hc Hs]. auto.
Qed.

(** A continuation that hands on only text of the subject. *)
Definition keeps (k : Re.cont) : Prop :=
  forall prev t caps res,
    chars_in t -> Forall chars_in caps -> k prev t caps = Some res ->
    chars_in (fst res) /\ Forall chars_in (snd res).

Lemma m_plus_keeps (a : Re.atom) (k : Re.cont) : keeps k -> keeps (Re.m_plus a k).
Proof.
  intros Hk prev t. revert prev.
  induction t as [|c t IH]; intros prev caps res Ht Hcaps; simpl; [discriminate|].
  destruct Ht as [Hc Ht].
  destruct (Re.atom_matches a c); [|discriminate].
  destruct (Re.m_plus a k (Some c) t caps) as [res'|] eqn:E.
  - intros [= <-]. now apply (IH (Some c) caps).
  - now apply Hk.
Qed.

Lemma m_keeps (r : Re.regex) : forall k, keeps k -> keeps (Re.m r k).
Proof.
  induction r as [|a|a| |r IH|r1 IH1 r2 IH2]; intros k Hk; simpl.
  - exact Hk.
  - intros prev [|c t] caps res Ht Hcaps; [discriminate|].
    destruct Ht as [Hc Ht].
    destruct (Re.atom_matches a c); [|discriminate]. now apply Hk.
  - now apply m_plus_keeps.
  - intros prev t caps res Ht Hcaps.
    destruct (xorb _ _); [|discriminate]. now apply Hk.
  - intros prev t caps res Ht Hcaps. apply IH; [|assumption..].
    intros prev1 t1 caps1 res1 Ht1 Hcaps1. apply Hk; [assumption|].
    apply Forall_app. split; [assumption|].
    constructor; [|constructor]. now apply chars_in_take.
  - now apply IH1, IH2.
Qed.

Lemma reported_keeps (r : Re.regex) (prev : option ascii) (s : string) (res : Re.result) :
  chars_in s -> Re.match_here r prev s = Some res -> chars_in (Re.reported s res).
Proof.
  intros Hs E. unfold Re.match_here in E.
  assert (keeps (fun _ s' caps => Some (s', caps))) as Hk.
  { intros prev1 t1 caps1 res1 Ht1 Hcaps1 [= <-]. now split. }
  destruct (m_keeps r _ Hk prev s [] res Hs (List.Forall_nil _) E) as [_ Hcaps].
  unfold Re.reported. destruct (snd res).
  - now apply chars_in_take.
  - now inversion Hcaps.
Qed.

Lemma findall_from_keeps (r : Re.regex) (s : string) (skip : nat) (prev : option ascii) :
  chars_in s -> Forall chars_in (Re.findall_from r skip prev s).
Proof.
  revert skip prev. induction s as [|c s IH]; intros skip prev Hs.
  - destruct skip; simpl; [|constructor].
    destruct (Re.match_here r prev "") as [res|] eqn:E; constructor; [|constructor].
    now apply (reported_keeps r prev).
  - destruct skip as [|skip]; [|apply IH, Hs].
    rewrite findall_from_cons.
    destruct (Re.match_here r prev (String c s)) as [res|] eqn:E; [|apply IH, Hs].
    constructor; [|apply IH, Hs].
    now apply (reported_keeps r prev).
Qed.

Lemma split_keeps (sep : ascii) (s : string) :
  chars_in s -> Forall chars_in (split sep s).
Proof.
  induction s as [|c s IH]; simpl; intros Hs; [now repeat constructor|].
  destruct Hs as [Hc Hs]. specialize (IH Hs).
  destruct (Ascii.eqb c sep); [now constructor|].
  destruct (split sep s) as [|piece pieces]; [now repeat constructor|].
  inversion IH; subst. now constructor.
Qed.

Lemma index_last_Forall {A : Type} (Q : A -> Prop) (l : list A) (x : A) :
  Forall Q l -> index_last l = Some x -> Q x.
Proof.
  induction l as [|y l IH]; [discriminate|].
  intros H. inversion H; subst.
  destruct l as [|z l]; [now intros [= <-]|]. now apply IH.
Qed.

Lemma tables_of_keeps (sql_lc : string) :
  chars_in sql_lc -> Forall chars_in (tables_of sql_lc).
Proof.
  intros Hs. unfold tables_of. apply Forall_map, Forall_app.
  assert (forall t, chars_in t -> chars_in (last_part t)) as Hlast.
  { intros t Ht.
    apply (index_last_Forall chars_in (split "." t)); [now apply split_keeps|].
    apply index_last_split. }
  split; (eapply Forall_impl; [now apply findall_from_keeps | exact Hlast]).
Qed.

End Characters.

Lemma first_not_in_In (tables : list string) (schema : schema_t) (t : string) :
  first_not_in tables schema = Some t -> In t tables.
Proof.
  induction tables as [|t' tables IH]; simpl; [discriminate|].
  destruct (schema !! t'); [now right; apply IH|]. intros [= ->]. now left.
Qed.

Lemma lower_chars (s : string) : chars_in (fun c => lower_char c = c) (lower s).
Proof.
  induction s as [|c s IH]; simpl; [exact I|]. split; [apply lower_char_idem | exact IH].
Qed.

Lemma chars_lower (s : string) : chars_in (fun c => lower_char c = c) s -> lower s = s.
Proof.
  induction s as [|c s IH]; simpl; [reflexivity|]. intros [-> Hs]. now rewrite IH.
Qed.

Lemma append_cancel_r (a b s : string) : a +:+ s = b +:+ s -> a = b.
Proof.
  revert b; induction a as [|c a IH]; intros [|d b] H.
  - reflexivity.
  - apply (f_equal String.length) in H.
    rewrite (append_length (String d b)) in H. simpl in H. lia.
  - apply (f_equal String.length) in H.
    rewrite (append_length (String c a)) in H. simpl in H. lia.
  - injection H as -> H. now rewrite (IH b H).
Qed.

(** ** The rules of the validator *)

(** What [re] makes of a word boundary written with one backslash: the
    keyword is found as a whole word. *)
Lemma single_backslash_boundary_finds_drop :
  Re.search "\bdrop\b" "drop table london_bike_data"
  = Some (Some (" table london_bike_data", [])).
Proof. reflexivity. Qed.

Lemma single_backslash_from_finds_table :
  Re.findall "\bfrom\s+([\w\.]+)" "select * from secret_table limit 5"
  = Some ["secret_table"].
Proof. reflexivity. Qed.

(** C1, at the input of the repository's own test: no banned keyword is
    found in [drop table london_bike_data], because each pattern asks for
    the keyword between two literal backslash-b pairs; the query is turned
    away by the next rule, with the must-start-with-SELECT reason and not
    the read-only one. *)
Theorem drop_table_not_rejected_as_read_only (schema : schema_t) :
  any_banned banned (lower "drop table london_bike_data") = Some false /\
  validate_sql "drop table london_bike_data" schema = Some (false, MSG_SELECT).
Proof. split; reflexivity. Qed.

(** C2, at the input of the repository's own test: no table name is
    extracted from [select * from secret_table limit 5], because the two
    patterns ask for a literal backslash before and after the keyword; the
    query is accepted whatever the schema, also when [secret_table] is no
    key of it. *)
Theorem secret_table_accepted :
  SCHEMA !! "secret_table" = None /\
  Re.findall from_pattern (lower "select * from secret_table limit 5") = Some [] /\
  forall schema : schema_t,
    validate_sql "select * from secret_table limit 5" schema = Some (true, "").
Proof. repeat split. Qed.

(** C3: a query that contains the separator [;], wherever it stands and
    whatever else the query holds, is rejected with the multiple-statements
    reason, for every schema: the rule comes first. *)
Theorem separator_rejected_first (sql : string) (schema : schema_t) :
  (exists pre post, sql = pre +:+ ";" +:+ post) ->
  validate_sql sql schema = Some (false, MSG_MULTIPLE).
Proof.
  intros (pre & post & ->). unfold validate_sql.
  assert (str_in ";" (lower (pre +:+ ";" +:+ post)) = true) as ->; [|reflexivity].
  apply str_in_spec. exists (lower pre), (lower post).
  now rewrite !lower_append.
Qed.

Lemma separator_rejected_first_witness :
  validate_sql "select 1; drop table t" SCHEMA = Some (false, MSG_MULTIPLE).
Proof.
  apply (separator_rejected_first "select 1; drop table t" SCHEMA).
  exists "select 1", " drop table t". reflexivity.
Defined.

(** C4 as stated fails: the validator does not trim.  The query
    [ select 1 limit 1], with a leading blank, gets through the first two
    rules and begins with [select] once trimmed, yet is rejected with the
    must-start-with-SELECT reason. *)
Lemma select_rule_trims_fails : ~ select_rule_trims.
Proof.
  intros H.
  destruct (H " select 1 limit 1" SCHEMA) as [Hto _]; [discriminate..|].
  discriminate Hto. reflexivity.
Qed.

(** C4, amended: among the queries the first two rules let through, the
    must-start-with-SELECT rejection is returned exactly when the lowered
    text of the query, taken as it is and not trimmed, does not begin with
    [select]. *)
Theorem select_rule_on_untrimmed_text (sql : string) (schema : schema_t) :
  validate_sql sql schema <> Some (false, MSG_MULTIPLE) ->
  validate_sql sql schema <> Some (false, MSG_READ_ONLY) ->
  (validate_sql sql schema = Some (false, MSG_SELECT)
   <-> startswith (lower sql) "select" = false).
Proof.
  rewrite validate_sql_eq. unfold verdict. intros H1 H2.
  destruct (str_in ";" (lower sql)); [congruence|].
  destruct (banned_hit banned (lower sql)); [congruence|].
  destruct (startswith (lower sql) "select"); simpl; [|tauto].
  split; [|discriminate]. intros H; exfalso.
  destruct (first_not_in _ schema) as [t|].
  - destruct (MSG_TABLE_head t) as [rest E]. rewrite E in H. discriminate.
  - destruct (negb _ && negb _); discriminate.
Qed.

Lemma select_rule_on_untrimmed_text_witness :
  validate_sql " select 1 limit 1" SCHEMA = Some (false, MSG_SELECT)
  <-> startswith (lower " select 1 limit 1") "select" = false.
Proof.
  apply (select_rule_on_untrimmed_text " select 1 limit 1" SCHEMA); discriminate.
Defined.

(** C5: a query that the first four rules let through, whose lowered text
    holds no aggregate marker and no [limit], is rejected with the
    missing-limit reason; with a limit clause added at its end the same
    query is accepted.  So it is for the two queries over
    [london_bike_data] of the repository's tests. *)
Theorem limit_required_unless_aggregate :
  (forall (sql : string) (schema : schema_t),
      passes_first_four sql schema ->
      (forall marker, In marker agg_keywords ->
                      ~ exists pre post, lower sql = pre +:+ marker +:+ post) ->
      ~ (exists pre post, lower sql = pre +:+ "limit" +:+ post) ->
      validate_sql sql schema = Some (false, MSG_LIMIT) /\
      forall n, all_digits n = true ->
                validate_sql (sql +:+ " limit " +:+ n) schema = Some (true, ""))
  /\ validate_sql "select * from london_bike_data" SCHEMA = Some (false, MSG_LIMIT)
  /\ str_in "include a LIMIT" MSG_LIMIT = true
  /\ validate_sql "select * from london_bike_data limit 10" SCHEMA = Some (true, "").
Proof.
  split; [|repeat split].
  intros sql schema Hpass Hagg Hlim. split.
  - apply passes_first_four_inv in Hpass as (H1 & H2 & H3 & H4).
    rewrite validate_sql_eq. unfold verdict.
    rewrite H1, H2, H3, H4, (is_aggregate_false _ Hagg).
    destruct (str_in "limit" (lower sql)) eqn:E; [|reflexivity].
    apply str_in_spec in E. contradiction.
  - intros n Hn. now apply limit_clause_accepted.
Qed.

Lemma limit_required_unless_aggregate_witness :
  validate_sql "SELECT city FROM joint_bike_data" SCHEMA = Some (false, MSG_LIMIT) /\
  validate_sql ("SELECT city FROM joint_bike_data" +:+ " limit " +:+ "25") SCHEMA
  = Some (true, "").
Proof.
  destruct (proj1 limit_required_unless_aggregate
              "SELECT city FROM joint_bike_data" SCHEMA) as [Hrej Hacc].
  - apply passes_first_four_intro; reflexivity.
  - intros marker Hin Hsub. apply str_in_spec in Hsub.
    simpl in Hin. repeat (destruct Hin as [<- | Hin]; [discriminate Hsub|]).
    contradiction.
  - intros Hsub. apply str_in_spec in Hsub. discriminate Hsub.
  - split; [exact Hrej | apply Hacc; reflexivity].
Defined.

(** C6: a query that the first four rules let through and whose lowered
    text contains one of the aggregate markers is accepted with an empty
    reason, with or without a limit clause; so is the grouped count over
    [london_bike_data] of the repository's test. *)
Theorem aggregate_accepted_without_limit :
  (forall (sql : string) (schema : schema_t) (marker : string),
      passes_first_four sql schema ->
      In marker agg_keywords ->
      (exists pre post, lower sql = pre +:+ marker +:+ post) ->
      validate_sql sql schema = Some (true, ""))
  /\ validate_sql
       "select start_station_name, count(*) from london_bike_data group by 1 order by 2 desc"
       SCHEMA = Some (true, "").
Proof.
  split; [|reflexivity].
  intros sql schema marker Hpass Hin Hsub.
  apply passes_first_four_inv in Hpass as (H1 & H2 & H3 & H4).
  rewrite validate_sql_eq. unfold verdict. rewrite H1, H2, H3, H4.
  assert (is_aggregate (lower sql) = true) as ->; [|reflexivity].
  unfold is_aggregate. apply existsb_exists.
  exists marker. split; [assumption|]. now apply str_in_spec.
Qed.

Lemma aggregate_accepted_without_limit_witness :
  validate_sql "SELECT city, AVG(minutes) FROM joint_bike_data GROUP BY city" SCHEMA
  = Some (true, "").
Proof.
  apply (proj1 aggregate_accepted_without_limit _ SCHEMA "avg(").
  - apply passes_first_four_intro; reflexivity.
  - simpl; tauto.
  - exists "select city, ", "minutes) from joint_bike_data group by city".
    reflexivity.
Defined.

(** C7: the validator returns a verdict on every string and every schema,
    it never raises.  The verdict is accepted exactly when the reason is
    empty, and a rejection carries one of the five rule reasons.  The empty
    query is rejected by the must-start-with-SELECT rule. *)
Theorem validate_sql_total :
  (forall (sql : string) (schema : schema_t),
      exists (accepted : bool) (reason : string),
        validate_sql sql schema = Some (accepted, reason) /\
        (accepted = true <-> reason = "") /\
        (accepted = false ->
         reason = MSG_MULTIPLE \/ reason = MSG_READ_ONLY \/ reason = MSG_SELECT \/
         (exists t, reason = MSG_TABLE t) \/ reason = MSG_LIMIT))
  /\ forall schema : schema_t, validate_sql "" schema = Some (false, MSG_SELECT).
Proof.
  split; [|reflexivity].
  intros sql schema. rewrite validate_sql_eq. unfold verdict.
  destruct (str_in ";" (lower sql)).
  { do 2 eexists; split; [reflexivity|]. split; [split; discriminate | auto]. }
  destruct (banned_hit banned (lower sql)).
  { do 2 eexists; split; [reflexivity|]. split; [split; discriminate | auto]. }
  destruct (startswith (lower sql) "select"); simpl.
  2: { do 2 eexists; split; [reflexivity|]. split; [split; discriminate | auto]. }
  destruct (first_not_in _ schema) as [t|].
  { do 2 eexists; split; [reflexivity|]. split; [|eauto 6].
    destruct (MSG_TABLE_head t) as [rest ->]. split; discriminate. }
  destruct (negb _ && negb _).
  - do 2 eexists; split; [reflexivity|]. split; [split; discriminate | auto 6].
  - do 2 eexists; split; [reflexivity|]. split; [tauto | discriminate].
Qed.

(** C9: the verdict is set by the lowered text of the query.  Two queries
    with the same lowered text get the same verdict, reason included, under
    every schema; so do a query and its lowered text; and the table name in
    a table rejection is in lower case. *)
Theorem verdict_depends_on_lowered_text :
  (forall (schema : schema_t) (sql1 sql2 : string),
      lower sql1 = lower sql2 -> validate_sql sql1 schema = validate_sql sql2 schema)
  /\ (forall (schema : schema_t) (sql : string),
         validate_sql (lower sql) schema = validate_sql sql schema)
  /\ (forall (schema : schema_t) (sql t : string),
         validate_sql sql schema = Some (false, MSG_TABLE t) -> lower t = t).
Proof.
  assert (forall (schema : schema_t) (sql1 sql2 : string),
             lower sql1 = lower sql2 ->
             validate_sql sql1 schema = validate_sql sql2 schema) as Hsame.
  { intros schema sql1 sql2 H. unfold validate_sql. now rewrite H. }
  split; [exact Hsame|]. split.
  - intros schema sql. apply Hsame, lower_idem.
  - intros schema sql t. rewrite validate_sql_eq. unfold verdict.
    destruct (MSG_TABLE_head t) as [rest Ht].
    destruct (str_in ";" (lower sql)); [rewrite Ht; discriminate|].
    destruct (banned_hit banned (lower sql)); [rewrite Ht; discriminate|].
    destruct (startswith (lower sql) "select"); [|rewrite Ht; discriminate].
    cbn [negb]. destruct (first_not_in _ schema) as [t0|] eqn:E.
    + intros [= H%append_cancel_r]. subst t0.
      apply first_not_in_In in E. apply chars_lower.
      pose proof (tables_of_keeps _ _ (lower_chars sql)) as Hall.
      rewrite List.Forall_forall in Hall. now apply Hall.
    + destruct (negb _ && negb _); [rewrite Ht|]; discriminate.
Qed.

Lemma verdict_depends_on_lowered_text_witness :
  validate_sql "SELECT \BFROM\S\W.\W LIMIT 3" SCHEMA
  = validate_sql "select \bfrom\s\w.\w limit 3" SCHEMA
  /\ lower "\w" = "\w".
Proof.
  split.
  - apply (proj1 verdict_depends_on_lowered_text SCHEMA). reflexivity.
  - apply (proj2 (proj2 verdict_depends_on_lowered_text) SCHEMA
             "SELECT \BFROM\S\W.\W LIMIT 3"). reflexivity.
Defined.

(** C10: two schemas with the same table names give the same verdict on
    every query; the columns and their declared types play no part. *)
Theorem verdict_depends_on_table_names_only (sql : string) (s1 s2 : schema_t) :
  dom s1 = dom s2 -> validate_sql sql s1 = validate_sql sql s2.
Proof.
  intros Hdom. rewrite !validate_sql_eq. unfold verdict.
  now rewrite (first_not_in_dom _ s1 s2 Hdom).
Qed.

Lemma verdict_depends_on_table_names_only_witness :
  dom SCHEMA = dom SCHEMA_other_columns /\
  validate_sql "select \bfrom\s\w limit 3" SCHEMA
  = validate_sql "select \bfrom\s\w limit 3" SCHEMA_other_columns.
Proof.
  split; [reflexivity|].
  apply (verdict_depends_on_table_names_only _ SCHEMA SCHEMA_other_columns).
  reflexivity.
Defined.

(** * Further properties of the service *)

(** ** A pattern made of literal characters is a substring test *)

Section LiteralPatterns.

(** The text a pattern stands for when it is built of literal characters
    only. *)
Fixpoint literal_of (r : Re.regex) : option string :=
  match r with
  | Re.Eps => Some ""
  | Re.Atom (Re.A_lit c) => Some (String c "")
  | Re.Cat r1 r2 =>
      match literal_of r1, literal_of r2 with
      | Some w1, Some w2 => Some (w1 +:+ w2)
      | _, _ => None
      end
  | _ => None
  end.

(** The character before the position, once [w] has been read. *)
Fixpoint prev_after (prev : option ascii) (w : string) : option ascii :=
  match w with
  | EmptyString => prev
  | String c w' => prev_after (Some c) w'
  end.

Lemma prev_after_append (prev : option ascii) (w1 w2 : string) :
  prev_after prev (w1 +:+ w2) = prev_after (prev_after prev w1) w2.
Proof.
  revert prev; induction w1 as [|c w1 IH]; intros prev; simpl; [reflexivity | apply IH].
Qed.

Lemma startswith_append_same (w t p : string) :
  startswith (w +:+ t) (w +:+ p) = startswith t p.
Proof.
  induction w as [|c w IH]; simpl; [reflexivity|].
  now rewrite Ascii.eqb_refl.
Qed.

Lemma startswith_append_false (s w1 w2 : string) :
  startswith s (w1 +:+ w2) = false ->
  startswith s w1 = false \/
  exists t, s = w1 +:+ t /\ startswith t w2 = false.
Proof.
  intros H. destruct (startswith s w1) eqn:E; [right | now left].
  apply startswith_inv in E as [t ->]. exists t. split; [reflexivity|].
  now rewrite startswith_append_same in H.
Qed.

Lemma m_literal_append (r : Re.regex) (w : string) :
  literal_of r = Some w ->
  forall k prev t caps,
    Re.m r k prev (w +:+ t) caps = k (prev_after prev w) t caps.
Proof.
  revert w. induction r as [|a|a| |r IH|r1 IH1 r2 IH2]; simpl; intros w Hw;
    try discriminate.
  - injection Hw as <-. reflexivity.
  - destruct a as [c| |items]; try discriminate. injection Hw as <-.
    intros k prev t caps. simpl. now rewrite Ascii.eqb_refl.
  - destruct (literal_of r1) as [w1|]; [|discriminate].
    destruct (literal_of r2) as [w2|]; [|discriminate]. injection Hw as <-.
    intros k prev t caps.
    now rewrite append_assoc, (IH1 w1 eq_refl), (IH2 w2 eq_refl), prev_after_append.
Qed.

Lemma m_literal_fail (r : Re.regex) (w : string) :
  literal_of r = Some w ->
  forall k prev s caps, startswith s w = false -> Re.m r k prev s caps = None.
Proof.
  revert w. induction r as [|a|a| |r IH|r1 IH1 r2 IH2]; simpl; intros w Hw;
    try discriminate.
  - injection Hw as <-. discriminate.
  - destruct a as [c| |items]; try discriminate. injection Hw as <-.
    intros k prev [|d s] caps; simpl; [reflexivity|].
    now destruct (Ascii.eqb d c).
  - destruct (literal_of r1) as [w1|] eqn:E1; [|discriminate].
    destruct (literal_of r2) as [w2|] eqn:E2; [|discriminate]. injection Hw as <-.
    intros k prev s caps [H|(t & -> & H)]%startswith_append_false.
    + now apply (IH1 w1).
    + rewrite (m_literal_append r1 w1 E1). now apply (IH2 w2).
Qed.

Lemma match_here_literal (r : Re.regex) (w : string) (prev : option ascii) (s : string) :
  literal_of r = Some w ->
  matched (Re.match_here r prev s) = startswith s w.
Proof.
  intros Hw. unfold Re.match_here.
  destruct (startswith s w) eqn:E.
  - apply startswith_inv in E as [t ->].
    now rewrite (m_literal_append r w Hw).
  - now rewrite (m_literal_fail r w Hw).
Qed.

(** [re.search] of a literal pattern finds a match exactly where Python's
    [in] finds the text. *)
Lemma search_from_literal (r : Re.regex) (w : string) (s : string) (prev : option ascii) :
  literal_of r = Some w ->
  matched (Re.search_from r prev s) = str_in w s.
Proof.
  intros Hw. revert prev. induction s as [|c s IH]; intros prev;
    rewrite str_in_unfold, <- (match_here_literal r w prev _ Hw); simpl.
  - now destruct (Re.match_here r prev "").
  - destruct (Re.match_here r prev (String c s)); [reflexivity | apply IH].
Qed.

(** The text each keyword pattern stands for: the keyword between two
    backslash-b pairs. *)
Definition banned_text (kw : string) : string := "\b" +:+ kw +:+ "\b".

Lemma banned_re_literal (kw : string) :
  In kw banned -> literal_of (banned_re kw) = Some (banned_text kw).
Proof.
  unfold banned; simpl; intros H.
  repeat (destruct H as [<- | H]; [reflexivity|]). contradiction.
Qed.

Lemma banned_hit_spec (kws : list string) (sql_lc : string) :
  (forall kw, In kw kws -> In kw banned) ->
  banned_hit kws sql_lc = existsb (fun kw => str_in (banned_text kw) sql_lc) kws.
Proof.
  induction kws as [|kw kws IH]; intros Hin; [reflexivity|].
  unfold banned_hit in *. simpl.
  rewrite (search_from_literal _ (banned_text kw)) by (apply banned_re_literal, Hin; now left).
  rewrite IH; [reflexivity|]. intros kw' H. apply Hin. now right.
Qed.

End LiteralPatterns.

(** ** More on the validator *)

Section ValidatorFacts.

Lemma lower_char_backslash (c : ascii) : lower_char c = "\"%char <-> c = "\"%char.
Proof.
  destruct c as [[] [] [] [] [] [] [] []]; vm_compute; split; congruence.
Qed.

Lemma str_in_char_lower (b : ascii) (s : string) :
  (forall c, lower_char c = b <-> c = b) ->
  str_in (String b "") (lower s) = str_in (String b "") s.
Proof.
  intros Hb. induction s as [|c s IH]; [reflexivity|].
  cbn [lower]. rewrite !str_in_char_cons, IH. f_equal.
  destruct (Ascii.eqb c b) eqn:E.
  - apply Ascii.eqb_eq in E. apply Ascii.eqb_eq. now apply Hb.
  - apply Ascii.eqb_neq in E. apply Ascii.eqb_neq. intros H. now apply E, Hb.
Qed.

Lemma first_not_in_absent (tables : list string) (schema : schema_t) (t : string) :
  first_not_in tables schema = Some t -> schema !! t = None.
Proof.
  induction tables as [|t' tables IH]; simpl; [discriminate|].
  destruct (schema !! t') eqn:E; [exact IH|]. now intros [= <-].
Qed.

Lemma first_not_in_None (tables : list string) (schema : schema_t) :
  first_not_in tables schema = None <->
  forall t, In t tables -> is_Some (schema !! t).
Proof.
  induction tables as [|t' tables IH]; simpl.
  - split; [intros _ t [] | reflexivity].
  - destruct (schema !! t') eqn:E.
    + rewrite IH. split.
      * intros H t [<-|Ht]; [rewrite E; eauto | now apply H].
      * intros H t Ht. apply H. now right.
    + split; [discriminate|]. intros H.
      destruct (H t' (or_introl eq_refl)) as [x Hx]. congruence.
Qed.

Lemma split_no_sep (sep : ascii) (s : string) :
  Forall (fun piece => str_in (String sep "") piece = false) (split sep s).
Proof.
  induction s as [|c s IH]; simpl; [now repeat constructor|].
  destruct (Ascii.eqb c sep) eqn:E; [now constructor|].
  destruct (split sep s) as [|piece pieces].
  - repeat constructor. now rewrite str_in_char_cons, E.
  - inversion IH; subst. constructor; [|assumption].
    now rewrite str_in_char_cons, E.
Qed.

Lemma last_part_no_dot (t : string) : str_in "." (last_part t) = false.
Proof.
  apply (index_last_Forall (fun piece => str_in "." piece = false) (split "." t));
    [apply split_no_sep | apply index_last_split].
Qed.

Lemma is_aggregate_spec (sql_lc : string) :
  is_aggregate sql_lc = true <->
  exists marker, In marker agg_keywords /\ str_in marker sql_lc = true.
Proof. unfold is_aggregate. apply existsb_exists. Qed.

End ValidatorFacts.

(** What the validator makes of a query without a backslash: the separator,
    the leading keyword and the limit decide, nothing else. *)
Definition plain_verdict (sql : string) : bool * string :=
  let sql_lc := lower sql in
  if str_in ";" sql_lc then (false, MSG_MULTIPLE)
  else if negb (startswith sql_lc "select") then (false, MSG_SELECT)
  else if negb (is_aggregate sql_lc) && negb (str_in "limit" sql_lc)
       then (false, MSG_LIMIT)
       else (true, "").

Lemma accepted_inv (sql : string) (schema : schema_t) :
  validate_sql sql schema = Some (true, "") ->
  str_in ";" sql = false /\
  startswith (lower sql) "select" = true /\
  (forall t, In t (tables_of (lower sql)) -> is_Some (schema !! t)) /\
  ((exists marker, In marker agg_keywords /\ str_in marker (lower sql) = true)
   \/ str_in "limit" (lower sql) = true).
Proof.
  rewrite validate_sql_eq. unfold verdict.
  rewrite <- (str_in_char_lower ";" sql lower_char_semicolon).
  destruct (str_in ";" (lower sql)); [discriminate|].
  destruct (banned_hit banned (lower sql)); [discriminate|].
  destruct (startswith (lower sql) "select"); [|discriminate]. cbn [negb].
  destruct (first_not_in _ schema) eqn:Et; [discriminate|].
  pose proof (proj1 (first_not_in_None _ _) Et) as Hkeys.
  destruct (is_aggregate (lower sql)) eqn:Ea.
  - intros _. repeat split; [assumption|]. left. now apply is_aggregate_spec.
  - destruct (str_in "limit" (lower sql)); [|discriminate].
    intros _. repeat split; [assumption | now right].
Qed.

(** X1: an accepted query holds no [;], begins with [select] once lowered,
    has every name the validator looked up among the keys of the schema,
    and carries an aggregate marker or the word [limit]. *)
Theorem accepted_query_shape (sql : string) (schema : schema_t) :
  validate_sql sql schema = Some (true, "") ->
  str_in ";" sql = false /\
  startswith (lower sql) "select" = true /\
  (forall t, In t (tables_of (lower sql)) -> is_Some (schema !! t)) /\
  ((exists marker, In marker agg_keywords /\ str_in marker (lower sql) = true)
   \/ str_in "limit" (lower sql) = true).
Proof. apply accepted_inv. Qed.

Lemma accepted_query_shape_witness :
  str_in ";" "Select city From joint_bike_data Limit 5" = false /\
  startswith (lower "Select city From joint_bike_data Limit 5") "select" = true.
Proof.
  destruct (accepted_query_shape "Select city From joint_bike_data Limit 5" SCHEMA)
    as (H1 & H2 & _); [reflexivity|]. now split.
Defined.

Lemma validate_sql_plain (sql : string) (schema : schema_t) :
  str_in "\" sql = false ->
  validate_sql sql schema = Some (plain_verdict sql).
Proof.
  intros Hs. rewrite <- (str_in_char_lower "\" sql lower_char_backslash) in Hs.
  rewrite validate_sql_eq. unfold verdict, plain_verdict.
  rewrite (banned_hit_needs_backslash banned _ (fun _ H => H) Hs),
    (tables_of_needs_backslash _ Hs).
  reflexivity.
Qed.

(** X2: on a query without a backslash the keyword rule and the table rule
    never fire; the verdict is [plain_verdict], the same under every
    schema. *)
Theorem backslash_free_verdict (sql : string) (schema : schema_t) :
  str_in "\" sql = false ->
  validate_sql sql schema = Some (plain_verdict sql).
Proof. apply validate_sql_plain. Qed.

Lemma backslash_free_verdict_witness :
  validate_sql "select * from passwords; delete from users" ∅
  = Some (plain_verdict "select * from passwords; delete from users")
  /\ validate_sql "select * from passwords limit 9" ∅ = Some (true, "").
Proof.
  split.
  - apply backslash_free_verdict. reflexivity.
  - apply (backslash_free_verdict "select * from passwords limit 9" ∅). reflexivity.
Defined.

(** X3: the read-only rejection is returned exactly when the lowered query
    has no [;] and contains, for one of the banned keywords, the keyword
    written between two backslash-b pairs. *)
Theorem read_only_rejection_iff (sql : string) (schema : schema_t) :
  validate_sql sql schema = Some (false, MSG_READ_ONLY) <->
  str_in ";" sql = false /\
  exists kw, In kw banned /\ str_in ("\b" +:+ kw +:+ "\b") (lower sql) = true.
Proof.
  rewrite validate_sql_eq. unfold verdict.
  rewrite <- (str_in_char_lower ";" sql lower_char_semicolon).
  rewrite (banned_hit_spec banned) by auto.
  destruct (str_in ";" (lower sql)).
  { split; [discriminate | now intros [? _]]. }
  destruct (existsb _ banned) eqn:E.
  - split; [|reflexivity]. intros _. split; [reflexivity|].
    now apply existsb_exists in E.
  - split.
    + intros H; exfalso. destruct (negb _); [discriminate|].
      destruct (first_not_in _ schema) as [t|].
      * destruct (MSG_TABLE_head t) as [rest Ht]. rewrite Ht in H. discriminate.
      * destruct (negb _ && negb _); discriminate.
    + intros [_ Hex]. apply existsb_exists in Hex. unfold banned_text in E. congruence.
Qed.

Lemma read_only_rejection_iff_witness :
  validate_sql "SELECT '\bDROP\b' LIMIT 1" SCHEMA = Some (false, MSG_READ_ONLY).
Proof.
  apply (proj2 (read_only_rejection_iff "SELECT '\bDROP\b' LIMIT 1" SCHEMA)).
  split; [reflexivity|]. exists "drop". split; [simpl; tauto | reflexivity].
Defined.

(** X4: a query accepted under a schema is accepted under every schema that
    has at least the same table names. *)
Theorem acceptance_survives_more_tables (sql : string) (s1 s2 : schema_t) :
  dom s1 ⊆ dom s2 ->
  validate_sql sql s1 = Some (true, "") ->
  validate_sql sql s2 = Some (true, "").
Proof.
  intros Hsub. rewrite !validate_sql_eq. unfold verdict.
  destruct (str_in ";" (lower sql)); [trivial|].
  destruct (banned_hit banned (lower sql)); [trivial|].
  destruct (negb (startswith (lower sql) "select")); [trivial|].
  destruct (first_not_in _ s1) eqn:E1; [discriminate|].
  assert (first_not_in (tables_of (lower sql)) s2 = None) as ->; [|trivial].
  apply first_not_in_None. intros t Ht.
  apply elem_of_dom, Hsub, elem_of_dom.
  now apply (proj1 (first_not_in_None _ _) E1).
Qed.

(** A schema with one table named [w], and a wider one. *)
Definition schema_w : schema_t := {[ "w" := ∅ ]}.
Definition schema_w_more : schema_t := {[ "w" := ∅; "rides" := {[ "id" := "BIGINT" ]} ]}.

Lemma acceptance_survives_more_tables_witness :
  validate_sql "select 1 \bfrom\sw limit 1" schema_w_more = Some (true, "").
Proof.
  apply (acceptance_survives_more_tables _ schema_w schema_w_more).
  - unfold schema_w, schema_w_more. set_solver.
  - reflexivity.
Defined.

(** X5: the table named in a table rejection is no key of the schema, and
    it holds no dot: of a qualified name only the last part is reported. *)
Theorem table_rejection_names_absent_table (sql : string) (schema : schema_t) (t : string) :
  validate_sql sql schema = Some (false, MSG_TABLE t) ->
  schema !! t = None /\ str_in "." t = false.
Proof.
  rewrite validate_sql_eq. unfold verdict.
  destruct (MSG_TABLE_head t) as [rest Ht].
  destruct (str_in ";" (lower sql)); [rewrite Ht; discriminate|].
  destruct (banned_hit banned (lower sql)); [rewrite Ht; discriminate|].
  destruct (negb (startswith (lower sql) "select")); [rewrite Ht; discriminate|].
  destruct (first_not_in _ schema) as [t0|] eqn:E.
  - intros [= H%append_cancel_r]. subst t0. split.
    + now apply first_not_in_absent in E.
    + apply first_not_in_In in E. unfold tables_of in E.
      apply in_map_iff in E as (cap & <- & _). apply last_part_no_dot.
  - destruct (negb _ && negb _); [rewrite Ht|]; discriminate.
Qed.

Lemma table_rejection_names_absent_table_witness :
  SCHEMA !! "w" = None /\ str_in "." "w" = false.
Proof.
  apply (table_rejection_names_absent_table "select 1 \bfrom\s\w.w limit 1" SCHEMA "w").
  reflexivity.
Defined.

(** ** What a match has read

    A successful run of the matcher splits the subject into the text read and
    the text left, hands the continuation one capture for each group, and has
    read a character for every atom that is not under a star. *)

Section MatchInversion.

Variable f : ReX.flags.

(** The number of groups of a pattern. *)
Fixpoint groups (r : ReX.regex) : nat :=
  match r with
  | ReX.Group r' => S (groups r')
  | ReX.Cat r1 r2 => groups r1 + groups r2
  | _ => 0
  end.

(** The atoms every match has to read. *)
Fixpoint mandatory (r : ReX.regex) : list Re.atom :=
  match r with
  | ReX.Atom a | ReX.Plus a => [a]
  | ReX.Group r' => mandatory r'
  | ReX.Cat r1 r2 => mandatory r1 ++ mandatory r2
  | _ => []
  end.

(** The text [u] holds a character that the atom accepts. *)
Definition reads (u : string) (a : Re.atom) : Prop :=
  exists pre c post, u = pre +:+ String c post /\ ReX.atom_matches f a c = true.

Lemma reads_append_l (u v : string) (a : Re.atom) : reads u a -> reads (u +:+ v) a.
Proof.
  intros (pre & c & post & -> & Hc). exists pre, c, (post +:+ v).
  split; [|exact Hc]. now rewrite append_assoc.
Qed.

Lemma reads_append_r (u v : string) (a : Re.atom) : reads v a -> reads (u +:+ v) a.
Proof.
  intros (pre & c & post & -> & Hc). exists (u +:+ pre), c, post.
  split; [|exact Hc]. now rewrite append_assoc.
Qed.

Lemma m_plus_inv (a : Re.atom) (k : Re.cont) (s : string) :
  forall prev caps res,
    ReX.m_plus f a k prev s caps = Some res ->
    exists u s' prev', s = u +:+ s' /\ reads u a /\ k prev' s' caps = Some res.
Proof.
  induction s as [|c s IH]; intros prev caps res; simpl; [discriminate|].
  destruct (ReX.atom_matches f a c) eqn:Hc; [|discriminate].
  destruct (ReX.m_plus f a k (Some c) s caps) as [res'|] eqn:E.
  - intros [= <-]. destruct (IH _ _ _ E) as (u & s' & prev' & -> & Hu & Hk).
    exists (String c u), s', prev'. repeat split; [|exact Hk].
    now apply (reads_append_r (String c "") u).
  - intros Hk. exists (String c ""), s, (Some c). repeat split; [|exact Hk].
    now exists "", c, "".
Qed.

Lemma m_star_inv (a : Re.atom) (k : Re.cont) (s : string) :
  forall prev caps res,
    ReX.m_star f a k prev s caps = Some res ->
    exists u s' prev', s = u +:+ s' /\ k prev' s' caps = Some res.
Proof.
  induction s as [|c s IH]; intros prev caps res; simpl.
  - intros Hk. now exists "", "", prev.
  - assert (k prev (String c s) caps = Some res ->
            exists u s' prev', String c s = u +:+ s' /\ k prev' s' caps = Some res) as Hhere.
    { intros Hk. now exists "", (String c s), prev. }
    destruct (ReX.atom_matches f a c); [|exact Hhere].
    destruct (ReX.m_star f a k (Some c) s caps) as [res'|] eqn:E; [|exact Hhere].
    intros [= <-]. destruct (IH _ _ _ E) as (u & s' & prev' & -> & Hk).
    now exists (String c u), s', prev'.
Qed.

Lemma m_lazy_inv (a : Re.atom) (k : Re.cont) (s : string) :
  forall prev caps res,
    ReX.m_lazy f a k prev s caps = Some res ->
    exists u s' prev', s = u +:+ s' /\ k prev' s' caps = Some res.
Proof.
  induction s as [|c s IH]; intros prev caps res; simpl.
  - destruct (k prev "" caps) eqn:E; [|discriminate].
    intros [= <-]. now exists "", "", prev.
  - destruct (k prev (String c s) caps) eqn:E.
    + intros [= <-]. now exists "", (String c s), prev.
    + destruct (ReX.atom_matches f a c); [|discriminate].
      intros H. destruct (IH _ _ _ H) as (u & s' & prev' & -> & Hk).
      now exists (String c u), s', prev'.
Qed.

Lemma m_inv (r : ReX.regex) :
  forall k prev s caps res,
    ReX.m f r k prev s caps = Some res ->
    exists u s' prev' new,
      s = u +:+ s' /\ length new = groups r /\
      Forall (reads u) (mandatory r) /\
      k prev' s' (caps ++ new) = Some res.
Proof.
  induction r as [|a|a|a|a| |r IH|r1 IH1 r2 IH2]; intros k prev s caps res; simpl.
  - intros Hk. exists "", s, prev, []. rewrite app_nil_r. repeat split; auto.
  - destruct s as [|c s]; [discriminate|].
    destruct (ReX.atom_matches f a c) eqn:Hc; [|discriminate].
    intros Hk. exists (String c ""), s, (Some c), []. rewrite app_nil_r.
    repeat split; [|exact Hk]. repeat constructor. now exists "", c, "".
  - intros (u & s' & prev' & -> & Hu & Hk)%m_plus_inv.
    exists u, s', prev', []. rewrite app_nil_r. repeat split; auto.
  - intros (u & s' & prev' & -> & Hk)%m_star_inv.
    exists u, s', prev', []. rewrite app_nil_r. repeat split; auto.
  - intros (u & s' & prev' & -> & Hk)%m_lazy_inv.
    exists u, s', prev', []. rewrite app_nil_r. repeat split; auto.
  - destruct (xorb _ _); [|discriminate].
    intros Hk. exists "", s, prev, []. rewrite app_nil_r. repeat split; auto.
  - intros (u & s' & prev' & new & -> & Hlen & Hu & Hk)%IH.
    eexists u, s', prev', (new ++ [_]). rewrite app_assoc.
    repeat split; [|exact Hu|exact Hk].
    rewrite length_app. simpl. lia.
  - intros (u1 & s1 & prev1 & new1 & -> & Hlen1 & Hu1 & Hk1)%IH1.
    apply IH2 in Hk1 as (u2 & s2 & prev2 & new2 & -> & Hlen2 & Hu2 & Hk2).
    exists (u1 +:+ u2), s2, prev2, (new1 ++ new2).
    rewrite append_assoc, app_assoc, length_app.
    repeat split; [lia| |exact Hk2].
    apply Forall_app. split.
    + eapply Forall_impl; [exact Hu1|]. intros a. apply reads_append_l.
    + eapply Forall_impl; [exact Hu2|]. intros a. apply reads_append_r.
Qed.

(** A match found by [search]: before it, the text read, after it; one
    capture a group; a character read for every mandatory atom. *)
Lemma search_from_inv (r : ReX.regex) (s : string) :
  forall prev rest caps,
    ReX.search_from f r prev s = Some (rest, caps) ->
    length caps = groups r /\
    exists pre u, s = pre +:+ u +:+ rest /\ Forall (reads u) (mandatory r).
Proof.
  assert (forall prev s rest caps,
             ReX.match_here f r prev s = Some (rest, caps) ->
             length caps = groups r /\
             exists u, s = u +:+ rest /\ Forall (reads u) (mandatory r)) as Hhere.
  { intros prev s0 rest caps H. unfold ReX.match_here in H.
    apply m_inv in H as (u & s' & prev' & new & -> & Hlen & Hu & [= <- <-]).
    split; [exact Hlen | now exists u]. }
  induction s as [|c s IH]; intros prev rest caps; simpl.
  - destruct (ReX.match_here f r prev "") as [[rest' caps']|] eqn:E; [|discriminate].
    intros [= <- <-]. destruct (Hhere _ _ _ _ E) as (Hlen & u & Hs & Hu).
    split; [exact Hlen|]. now exists "", u.
  - destruct (ReX.match_here f r prev (String c s)) as [[rest' caps']|] eqn:E.
    + intros [= <- <-]. destruct (Hhere _ _ _ _ E) as (Hlen & u & Hs & Hu).
      split; [exact Hlen|]. now exists "", u.
    + intros (Hlen & pre & u & -> & Hu)%IH.
      split; [exact Hlen|]. now exists (String c pre), u.
Qed.

End MatchInversion.

(** ** Extracting the query from the answer of the model *)

Section ExtractFacts.

Definition fence_re : ReX.regex :=
  Eval vm_compute in default ReX.Eps (ReX.compile fence_pattern).

Lemma compile_fence : ReX.compile fence_pattern = Some fence_re.
Proof. reflexivity. Qed.

(** The last character of a string. *)
Fixpoint last_char (s : string) : option ascii :=
  match s with
  | EmptyString => None
  | String c EmptyString => Some c
  | String _ s' => last_char s'
  end.

Lemma last_char_append (pre : string) (c : ascii) :
  last_char (pre +:+ String c "") = Some c.
Proof.
  induction pre as [|d pre IH]; [reflexivity|].
  change (String d pre +:+ String c "") with (String d (pre +:+ String c "")).
  cbn [last_char]. rewrite IH. now destruct pre.
Qed.

Lemma rstrip_chars_last (s chars : string) (c : ascii) :
  last_char (rstrip_chars s chars) = Some c -> char_in c chars = false.
Proof.
  induction s as [|d s IH]; simpl; [discriminate|].
  destruct (rstrip_chars s chars) as [|e r] eqn:E.
  - destruct (char_in d chars) eqn:Hd; simpl; [discriminate|]. now intros [= <-].
  - exact IH.
Qed.

Lemma rstrip_chars_prefix (s chars : string) :
  exists post, s = rstrip_chars s chars +:+ post.
Proof.
  induction s as [|d s [post IH]]; [now exists ""|]. simpl.
  destruct (rstrip_chars s chars) as [|e r].
  - destruct (char_in d chars); [now exists (String d s) | now exists s].
  - exists post. simpl. f_equal. exact IH.
Qed.

Lemma rstrip_prefix (s : string) : exists post, s = rstrip s +:+ post.
Proof.
  induction s as [|d s [post IH]]; [now exists ""|]. simpl.
  destruct (rstrip s) as [|e r].
  - destruct (isspace d); [now exists (String d s) | now exists s].
  - exists post. simpl. f_equal. exact IH.
Qed.

Lemma lstrip_head (s : string) (c : ascii) (rest : string) :
  lstrip s = String c rest -> isspace c = false.
Proof.
  induction s as [|d s IH]; simpl; [discriminate|].
  destruct (isspace d) eqn:Hd; [exact IH|]. now intros [= <- _].
Qed.

Lemma strip_head (s : string) (c : ascii) (rest : string) :
  strip s = String c rest -> isspace c = false.
Proof.
  unfold strip. intros H. destruct (rstrip_prefix (lstrip s)) as [post Hpost].
  rewrite H in Hpost. now apply (lstrip_head s c (rest +:+ post)).
Qed.

(** Whatever text goes in, what comes out of strip-then-rstrip begins with
    no blank and ends with no semicolon. *)
Lemma cleaned_shape (x : string) :
  let q := rstrip_chars (strip x) ";" in
  ~ (exists pre, q = pre +:+ ";") /\
  forall c rest, q = String c rest -> isspace c = false.
Proof.
  split.
  - intros [pre H].
    assert (last_char (rstrip_chars (strip x) ";") = Some ";"%char) as Hl
        by (rewrite H; apply last_char_append).
    apply rstrip_chars_last in Hl. discriminate.
  - intros c rest H. destruct (rstrip_chars_prefix (strip x) ";") as [post Hpost].
    rewrite H in Hpost. now apply (strip_head x c (rest +:+ post)).
Qed.

Lemma extract_sql_eq (text : string) :
  extract_sql text =
  match ReX.search_from fence_flags fence_re None text with
  | Some mo => g ← ReX.group mo 1; Some (rstrip_chars (strip g) ";")
  | None => Some (rstrip_chars (strip text) ";")
  end.
Proof. reflexivity. Qed.

Lemma fence_needs_backslash (text : string) :
  str_in "\" text = false ->
  ReX.search_from fence_flags fence_re None text = None.
Proof.
  intros Hs.
  destruct (ReX.search_from fence_flags fence_re None text) as [[rest caps]|] eqn:E;
    [exfalso | reflexivity].
  apply search_from_inv in E as (_ & pre & u & -> & Hu).
  assert (In (Re.A_lit "\") (mandatory fence_re)) as Hin by (simpl; tauto).
  rewrite List.Forall_forall in Hu.
  destruct (Hu _ Hin) as (pre0 & c & post & -> & Hc).
  change (Ascii.eqb (lower_char c) "\" = true) in Hc.
  apply Ascii.eqb_eq in Hc. apply (proj1 (lower_char_backslash c)) in Hc. subst c.
  assert (str_in "\" (pre +:+ (pre0 +:+ String "\" post) +:+ rest) = true) as Hin';
    [|congruence].
  apply str_in_spec. exists (pre +:+ pre0), (post +:+ rest).
  now rewrite !append_assoc.
Qed.

(** A run of [n] semicolons. *)
Fixpoint semicolons (n : nat) : string :=
  match n with
  | O => ""
  | S n' => String ";" (semicolons n')
  end.

Lemma rstrip_chars_semicolons (body : string) (n : nat) :
  rstrip_chars (body +:+ semicolons n) ";" = rstrip_chars body ";".
Proof.
  induction body as [|c body IH].
  - induction n as [|n IHn]; [reflexivity|].
    change ("" +:+ semicolons (S n)) with (String ";" ("" +:+ semicolons n)).
    cbn [rstrip_chars]. now rewrite IHn.
  - change (String c body +:+ semicolons n) with (String c (body +:+ semicolons n)).
    cbn [rstrip_chars]. now rewrite IH.
Qed.

Lemma rstrip_chars_id (body : string) :
  str_in ";" body = false -> rstrip_chars body ";" = body.
Proof.
  induction body as [|c body IH]; [reflexivity|].
  rewrite str_in_char_cons. intros [Hc Hb]%orb_false_iff.
  cbn [rstrip_chars]. rewrite (IH Hb).
  destruct body; [|reflexivity]. simpl. now rewrite Hc.
Qed.

End ExtractFacts.

(** X6: [extract_sql] returns a text for every answer, it never raises;
    the text does not end with a semicolon and does not begin with
    whitespace. *)
Theorem extract_sql_shape (text : string) :
  exists q, extract_sql text = Some q /\
            ~ (exists pre, q = pre +:+ ";") /\
            forall c rest, q = String c rest -> isspace c = false.
Proof.
  rewrite extract_sql_eq.
  destruct (ReX.search_from fence_flags fence_re None text) as [[rest caps]|] eqn:E.
  - apply search_from_inv in E as (Hlen & _).
    destruct caps as [|g caps]; [discriminate|].
    exists (rstrip_chars (strip g) ";"). split; [reflexivity | apply cleaned_shape].
  - exists (rstrip_chars (strip text) ";"). split; [reflexivity | apply cleaned_shape].
Qed.

(** X7: the fence pattern asks for a backslash after the word [sql].  An
    answer without a backslash is never unwrapped: it comes back whole,
    trimmed and without its trailing semicolons, code fence included. *)
Theorem extract_sql_without_backslash (text : string) :
  str_in "\" text = false ->
  extract_sql text = Some (rstrip_chars (strip text) ";").
Proof.
  intros Hs. now rewrite extract_sql_eq, (fence_needs_backslash text Hs).
Qed.

Lemma extract_sql_without_backslash_witness :
  extract_sql "```sql
SELECT 1
```" = Some "```sql
SELECT 1
```".
Proof.
  apply (extract_sql_without_backslash "```sql
SELECT 1
```"). reflexivity.
Defined.

(** X8: semicolons at the end of an answer are dropped.  When the trimmed
    answer is a text without semicolon followed by semicolons only, and the
    answer has no backslash, that text is what [extract_sql] returns. *)
Theorem extract_sql_drops_trailing_semicolons (text body : string) (n : nat) :
  str_in "\" text = false ->
  strip text = body +:+ semicolons n ->
  str_in ";" body = false ->
  extract_sql text = Some body.
Proof.
  intros Hs Hstrip Hbody.
  rewrite (extract_sql_without_backslash text Hs), Hstrip.
  now rewrite rstrip_chars_semicolons, rstrip_chars_id.
Qed.

Lemma extract_sql_drops_trailing_semicolons_witness :
  extract_sql "  SELECT count(*) FROM london_bike_data;; " =
  Some "SELECT count(*) FROM london_bike_data".
Proof.
  apply (extract_sql_drops_trailing_semicolons _ _ 2); reflexivity.
Defined.

(** ** Answering a request *)

Section AskFacts.

Variable Row : Type.
Variable completion : string -> string + Completion.
Variable run_sql : string -> string + Frame.frame Row.

Lemma extract_sql_total (text : string) : exists q, extract_sql text = Some q.
Proof.
  rewrite extract_sql_eq.
  destruct (ReX.search_from fence_flags fence_re None text) as [[rest caps]|] eqn:E;
    [|eauto].
  apply search_from_inv in E as (Hlen & _).
  destruct caps as [|g caps]; [discriminate | eauto].
Qed.

(** What [ask] does with the query extracted from the model's answer. *)
Definition after_answer (schema : schema_t) (body : AskRequest) (query : string)
    : outcome Row :=
  let (ok, reason) := verdict query schema in
  if negb ok then HTTPException 400 ("SQL rejected: " +:+ reason)
  else
    match run_sql query with
    | inl e => HTTPException 400 ("SQL execution failed: " +:+ e)
    | inr df =>
        Responds (mk_response (summarize_df df) query
                    (Frame.head (Z.min (max_rows body) 100) df) (Frame.columns df))
    end.

Lemma ask_answered (schema : schema_t) (body : AskRequest)
    (answered : Completion) (text : option string) (query : string) :
  String.eqb (strip (question body)) "" = false ->
  completion (question body) = inr answered ->
  first_content answered = Some text ->
  extract_sql (default "" text) = Some query ->
  ask Row completion run_sql schema body = Some (after_answer schema body query).
Proof.
  intros Hq Hc Hf He. unfold ask, after_answer.
  rewrite Hq, Hc, Hf. cbn [mbind option_bind]. rewrite He.
  cbn [mbind option_bind]. rewrite validate_sql_eq.
  cbn [mbind option_bind].
  destruct (verdict query schema) as [ok reason].
  destruct ok; cbn [negb]; [|reflexivity].
  now destruct (run_sql query).
Qed.

Lemma ask_responds_inv (schema : schema_t) (body : AskRequest) (resp : AskResponse Row) :
  ask Row completion run_sql schema body = Some (Responds resp) ->
  exists answered text df,
    completion (question body) = inr answered /\
    first_content answered = Some text /\
    extract_sql (default "" text) = Some (sql resp) /\
    validate_sql (sql resp) schema = Some (true, "") /\
    run_sql (sql resp) = inr df /\
    resp = mk_response (summarize_df df) (sql resp)
             (Frame.head (Z.min (max_rows body) 100) df) (Frame.columns df).
Proof.
  unfold ask.
  destruct (String.eqb (strip (question body)) ""); [discriminate|].
  destruct (completion (question body)) as [e|answered] eqn:Hc; [discriminate|].
  destruct (first_content answered) as [text|] eqn:Hf; [|discriminate].
  cbn [mbind option_bind].
  destruct (extract_sql_total (default "" text)) as [query He].
  rewrite He. cbn [mbind option_bind]. rewrite validate_sql_eq.
  cbn [mbind option_bind].
  destruct (verdict query schema) as [ok reason] eqn:Hv.
  destruct ok; cbn [negb]; [|discriminate].
  destruct (run_sql query) as [e|df] eqn:Hr; [discriminate|].
  intros [= <-]. cbn [sql]. exists answered, text, df.
  repeat split; try assumption.
  rewrite validate_sql_eq, Hv. do 2 f_equal.
  unfold verdict in Hv.
  destruct (str_in ";" (lower query)); [discriminate|].
  destruct (banned_hit banned (lower query)); [discriminate|].
  destruct (negb (startswith (lower query) "select")); [discriminate|].
  destruct (first_not_in _ schema); [discriminate|].
  destruct (negb _ && negb _); [discriminate|]. now injection Hv.
Qed.

Lemma head_length (n : Z) (df : Frame.frame Row) :
  (0 <= n)%Z ->
  length (Frame.head n df) <= Z.to_nat n /\
  Frame.head n df = firstn (length (Frame.head n df)) (Frame.rows df).
Proof.
  intros Hn. unfold Frame.head.
  destruct (0 <=? n)%Z eqn:E; [|lia]. split.
  - rewrite length_firstn. lia.
  - rewrite length_firstn.
    destruct (Nat.le_ge_cases (Z.to_nat n) (length (Frame.rows df))) as [H|H].
    + now rewrite Nat.min_l.
    + rewrite Nat.min_r by exact H. now rewrite !firstn_all2.
Qed.

Lemma lstrip_suffix (s : string) : exists pre, s = pre +:+ lstrip s.
Proof.
  induction s as [|c s [pre IH]]; [now exists ""|]. simpl.
  destruct (isspace c); [|now exists ""].
  exists (String c pre). simpl. f_equal. exact IH.
Qed.

Lemma strip_keeps_absent (b : ascii) (s : string) :
  str_in (String b "") s = false -> str_in (String b "") (strip s) = false.
Proof.
  intros H. destruct (lstrip_suffix s) as [pre Hpre].
  destruct (rstrip_prefix (lstrip s)) as [post Hpost].
  rewrite Hpre, Hpost, !str_in_char_append in H. unfold strip.
  now apply orb_false_iff in H as [_ [H _]%orb_false_iff].
Qed.

Lemma rstrip_chars_keeps_absent (b : ascii) (s chars : string) :
  str_in (String b "") s = false -> str_in (String b "") (rstrip_chars s chars) = false.
Proof.
  intros H. destruct (rstrip_chars_prefix s chars) as [post Hpost].
  rewrite Hpost, str_in_char_append in H. now apply orb_false_iff in H as [H _].
Qed.

Lemma rstrip_chars_head (c : ascii) (s chars : string) :
  char_in c chars = false ->
  exists rest, rstrip_chars (String c s) chars = String c rest.
Proof.
  intros Hc. simpl. destruct (rstrip_chars s chars); rewrite ?Hc; eauto.
Qed.

(** The query a fenced answer turns into, and its verdict. *)
Lemma fenced_answer_verdict (text : string) (schema : schema_t) :
  str_in "\" text = false ->
  startswith (strip text) "```" = true ->
  exists query,
    extract_sql text = Some query /\
    (verdict query schema = (false, MSG_MULTIPLE) \/
     verdict query schema = (false, MSG_SELECT)).
Proof.
  intros Hs Hfence. exists (rstrip_chars (strip text) ";").
  split; [now apply extract_sql_without_backslash|].
  assert (str_in "\" (rstrip_chars (strip text) ";") = false) as Hq
      by now apply rstrip_chars_keeps_absent, strip_keeps_absent.
  pose proof (validate_sql_plain _ schema Hq) as Hv.
  rewrite validate_sql_eq in Hv. injection Hv as ->.
  unfold plain_verdict.
  destruct (str_in ";" _); [now left | right].
  apply startswith_inv in Hfence as [post ->].
  change ("```" +:+ post) with (String "`" ("``" +:+ post)).
  destruct (rstrip_chars_head "`" ("``" +:+ post) ";" eq_refl) as [rest ->].
  reflexivity.
Qed.

(** Every character of the string is whitespace. *)
Fixpoint all_space (s : string) : bool :=
  match s with
  | EmptyString => true
  | String c s' => isspace c && all_space s'
  end.

Lemma strip_blank (s : string) : all_space s = true -> strip s = "".
Proof.
  intros H. unfold strip.
  assert (lstrip s = "") as ->; [|reflexivity].
  induction s as [|c s IH]; [reflexivity|]. simpl in *.
  apply andb_true_iff in H as [-> H]. now apply IH.
Qed.

End AskFacts.

(** A model that answers every question with the same text, and a database
    that returns the same frame of three rows for every query. *)
Definition fixed_completion (text : string) : string -> string + Completion :=
  fun _ => inr (mk_completion [mk_choice (Some (mk_message (Some text)))]).

Definition three_rows : Frame.frame nat := Frame.mk_frame ["rides"] [10; 20; 30].

Definition fixed_run_sql : string -> string + Frame.frame nat :=
  fun _ => inr three_rows.

(** X9: a response is given only for a query the validator accepted.  The
    query run is what [extract_sql] made of the content of the first choice
    of the completion; it holds no
    [;] and begins with [select] once lowered; the answer and the columns of
    the response are those of the frame that [run_sql] returned for it. *)
Theorem ask_runs_only_accepted_queries (Row : Type)
    (completion : string -> string + Completion)
    (run_sql : string -> string + Frame.frame Row)
    (schema : schema_t) (body : AskRequest) (resp : AskResponse Row) :
  ask Row completion run_sql schema body = Some (Responds resp) ->
  validate_sql (sql resp) schema = Some (true, "") /\
  str_in ";" (sql resp) = false /\
  startswith (lower (sql resp)) "select" = true /\
  (exists answered text,
      completion (question body) = inr answered /\
      first_content answered = Some text /\
      extract_sql (default "" text) = Some (sql resp)) /\
  exists df, run_sql (sql resp) = inr df /\
             answer resp = summarize_df df /\
             columns resp = Frame.columns df.
Proof.
  intros (answered & text & df & Hc & Hf & He & Hv & Hr & Hresp)%ask_responds_inv.
  destruct (accepted_inv _ _ Hv) as (H1 & H2 & _).
  repeat split; try assumption.
  - now exists answered, text.
  - exists df. rewrite Hresp. now repeat split.
Qed.

Lemma ask_runs_only_accepted_queries_witness :
  validate_sql "SELECT count(*) AS rides FROM london_bike_data" SCHEMA = Some (true, "").
Proof.
  apply (ask_runs_only_accepted_queries nat
           (fixed_completion "SELECT count(*) AS rides FROM london_bike_data;")
           fixed_run_sql SCHEMA (mk_request "How many rides?" 50)
           (mk_response "Returned 3 rows. Columns: rides."
              "SELECT count(*) AS rides FROM london_bike_data" [10; 20; 30] ["rides"])).
  reflexivity.
Defined.

(** X10: for a request whose [max_rows] is not negative, the preview of a
    response has at most 100 rows and at most [max_rows]; it is the leading
    rows of the frame that [run_sql] returned. *)
Theorem preview_is_bounded (Row : Type)
    (completion : string -> string + Completion)
    (run_sql : string -> string + Frame.frame Row)
    (schema : schema_t) (body : AskRequest) (resp : AskResponse Row) :
  (0 <= max_rows body)%Z ->
  ask Row completion run_sql schema body = Some (Responds resp) ->
  length (data_preview resp) <= 100 /\
  (Z.of_nat (length (data_preview resp)) <= max_rows body)%Z /\
  exists df, run_sql (sql resp) = inr df /\
             data_preview resp = firstn (length (data_preview resp)) (Frame.rows df).
Proof.
  intros Hmax (answered & text & df & Hc & Hf & He & Hv & Hr & Hresp)%ask_responds_inv.
  destruct (head_length Row (Z.min (max_rows body) 100) df) as [Hlen Hpre]; [lia|].
  rewrite Hresp. cbn [data_preview sql]. repeat split; try lia.
  exists df. split; [now rewrite Hresp in Hr | exact Hpre].
Qed.

Lemma preview_is_bounded_witness :
  length [10; 20] <= 100 /\ (Z.of_nat (length [10; 20]) <= 2)%Z.
Proof.
  destruct (preview_is_bounded nat
              (fixed_completion "select rides from london_bike_data limit 3")
              fixed_run_sql SCHEMA (mk_request "Show rides" 2)
              (mk_response "Returned 3 rows. Columns: rides."
                 "select rides from london_bike_data limit 3" [10; 20] ["rides"]))
    as (H1 & H2 & _); [simpl; lia | reflexivity |].
  split; assumption.
Defined.

(** X11: an answer (the content of the first choice) wrapped in a code
    fence, with no backslash in it, never reaches the database: the fence
    is not removed, and the request ends
    with status 400 and the multiple-statements or the
    must-start-with-SELECT reason. *)
Theorem fenced_answer_is_rejected (Row : Type)
    (completion : string -> string + Completion)
    (run_sql : string -> string + Frame.frame Row)
    (schema : schema_t) (body : AskRequest) (answered : Completion) (text : string) :
  String.eqb (strip (question body)) "" = false ->
  completion (question body) = inr answered ->
  first_content answered = Some (Some text) ->
  str_in "\" text = false ->
  startswith (strip text) "```" = true ->
  ask Row completion run_sql schema body
    = Some (HTTPException 400 ("SQL rejected: " +:+ MSG_MULTIPLE)) \/
  ask Row completion run_sql schema body
    = Some (HTTPException 400 ("SQL rejected: " +:+ MSG_SELECT)).
Proof.
  intros Hq Hc Hf Hs Hfence.
  destruct (fenced_answer_verdict text schema Hs Hfence) as (query & He & Hv).
  rewrite (ask_answered Row completion run_sql schema body answered (Some text) query
             Hq Hc Hf He).
  unfold after_answer. destruct Hv as [-> | ->]; [now left | now right].
Qed.

Lemma fenced_answer_is_rejected_witness :
  ask nat (fixed_completion "```sql
SELECT count(*) FROM london_bike_data
```") fixed_run_sql SCHEMA (mk_request "How many rides?" 50)
  = Some (HTTPException 400 ("SQL rejected: " +:+ MSG_SELECT)).
Proof.
  destruct (fenced_answer_is_rejected nat (fixed_completion "```sql
SELECT count(*) FROM london_bike_data
```") fixed_run_sql SCHEMA (mk_request "How many rides?" 50)
    (mk_completion [mk_choice (Some (mk_message (Some "```sql
SELECT count(*) FROM london_bike_data
```")))]) "```sql
SELECT count(*) FROM london_bike_data
```") as [H|H]; [reflexivity.. | discriminate H | exact H].
Defined.

(** X12: a question made of whitespace only, the empty one included, ends
    with status 400 and the detail "Question is empty.", whatever the model
    and the database would have returned. *)
Theorem blank_question_is_refused (Row : Type)
    (completion : string -> string + Completion)
    (run_sql : string -> string + Frame.frame Row)
    (schema : schema_t) (body : AskRequest) :
  all_space (question body) = true ->
  ask Row completion run_sql schema body
    = Some (HTTPException 400 "Question is empty.").
Proof.
  intros Hblank. unfold ask. now rewrite (strip_blank _ Hblank).
Qed.

Lemma blank_question_is_refused_witness :
  ask nat (fixed_completion "select 1 limit 1") fixed_run_sql SCHEMA (mk_request "  " 50)
  = Some (HTTPException 400 "Question is empty.").
Proof.
  apply blank_question_is_refused. reflexivity.
Defined.

(** X13: [ask] lets an exception through in one case only: the question
    is not blank, the model call returned, and the completion has no choice
    (the IndexError of [choices[0]]) or its first choice has no message
    (the AttributeError of [.content]).  Extracting and validating the
    query raise nothing.  Every other request ends in a response or in an
    HTTPException, whose status is 400 or 500. *)
Theorem ask_raises_only_without_first_message (Row : Type)
    (completion : string -> string + Completion)
    (run_sql : string -> string + Frame.frame Row)
    (schema : schema_t) (body : AskRequest) :
  (ask Row completion run_sql schema body = None <->
   String.eqb (strip (question body)) "" = false /\
   exists answered,
     completion (question body) = inr answered /\
     (choices answered = [] \/
      exists rest, choices answered = mk_choice None :: rest)) /\
  (forall o, ask Row completion run_sql schema body = Some o ->
             match o with
             | Responds _ => True
             | HTTPException code _ => code = 400 \/ code = 500
             end).
Proof.
  assert (forall answered,
             first_content answered = None <->
             choices answered = [] \/
             exists rest, choices answered = mk_choice None :: rest) as Hfirst.
  { intros [chs]. destruct chs as [|[m] rest]; unfold first_content; cbn.
    - split; [intros _; now left | reflexivity].
    - destruct m as [msg|]; cbn.
      + split; [discriminate | intros [H|[rest' H]]; discriminate].
      + split; [intros _; right; now exists rest | reflexivity]. }
  destruct (String.eqb (strip (question body)) "") eqn:Hq.
  { unfold ask. rewrite Hq. split.
    - split; [discriminate | now intros [? _]].
    - intros o [= <-]. now left. }
  destruct (completion (question body)) as [e|answered] eqn:Hc.
  { unfold ask. rewrite Hq, Hc. split.
    - split; [discriminate | intros [_ (a & Ha & _)]; discriminate].
    - intros o [= <-]. now right. }
  destruct (first_content answered) as [text|] eqn:Hf.
  - destruct (extract_sql_total (default "" text)) as [query He].
    rewrite (ask_answered Row completion run_sql schema body answered text query
               Hq Hc Hf He).
    split.
    + split; [discriminate|]. intros [_ (a & [= <-] & Ha)].
      apply Hfirst in Ha. congruence.
    + intros o [= <-]. unfold after_answer.
      destruct (verdict query schema) as [[] reason]; cbn [negb]; [|now left].
      destruct (run_sql query); [now left | exact I].
  - assert (ask Row completion run_sql schema body = None) as ->
        by (unfold ask; now rewrite Hq, Hc, Hf).
    split; [|discriminate].
    split; [|reflexivity]. intros _. split; [reflexivity|].
    exists answered. split; [reflexivity | now apply Hfirst].
Qed.

Lemma ask_raises_only_without_first_message_witness :
  ask nat (fun _ => inr (mk_completion [])) fixed_run_sql SCHEMA
    (mk_request "How many rides?" 50) = None.
Proof.
  apply (proj1 (ask_raises_only_without_first_message nat
                  (fun _ => inr (mk_completion [])) fixed_run_sql SCHEMA
                  (mk_request "How many rides?" 50))).
  split; [reflexivity|]. eexists. split; [reflexivity | now left].
Defined.

(** ** Summing up the frame *)

Lemma join_mentions (sep : string) (l : list string) (c : string) :
  In c l -> exists pre post, join sep l = pre +:+ c +:+ post.
Proof.
  induction l as [|x l IH]; [intros []|].
  intros [<-|Hc].
  - destruct l as [|y l]; [exists "", ""; simpl; now rewrite append_nil_r|].
    exists "", (sep +:+ join sep (y :: l)). reflexivity.
  - destruct l as [|y l]; [destruct Hc|].
    destruct (IH Hc) as (pre & post & E).
    exists (x +:+ sep +:+ pre), post.
    change (join sep (x :: y :: l)) with (x +:+ sep +:+ join sep (y :: l)).
    now rewrite E, !append_assoc.
Qed.

(** X14: the summary is "No rows returned." exactly for an empty frame; for
    any other frame it names every column label. *)
Theorem summary_names_every_column (Row : Type) (df : Frame.frame Row) :
  (summarize_df df = "No rows returned." <-> Frame.empty df = true) /\
  (Frame.empty df = false ->
   forall c, In c (Frame.columns df) -> str_in c (summarize_df df) = true).
Proof.
  unfold summarize_df. destruct (Frame.empty df).
  { split; [now split | discriminate]. }
  split; [split; discriminate|].
  - intros _ c Hc. apply str_in_spec.
    destruct (join_mentions ", " _ c Hc) as (pre & post & ->).
    exists ("Returned " +:+ pretty (Frame.len df) +:+ " rows. Columns: " +:+ pre),
      (post +:+ ".").
    now rewrite !append_assoc.
Qed.

Lemma summary_names_every_column_witness :
  str_in "rides" (summarize_df three_rows) = true.
Proof.
  apply (proj2 (summary_names_every_column nat three_rows)); [reflexivity|].
  simpl. tauto.
Defined.

(** ** Markers and limits wherever they stand *)

(** X15: an aggregate marker counts wherever it stands.  A text that holds
    a text classified as aggregate is classified as aggregate. *)
Theorem is_aggregate_anywhere (pre sql_lc post : string) :
  is_aggregate sql_lc = true -> is_aggregate (pre +:+ sql_lc +:+ post) = true.
Proof.
  intros (marker & Hin & (p & q & ->)%str_in_spec)%is_aggregate_spec.
  apply is_aggregate_spec. exists marker. split; [exact Hin|].
  apply str_in_spec. exists (pre +:+ p), (q +:+ post).
  now rewrite !append_assoc.
Qed.

Lemma is_aggregate_anywhere_witness :
  is_aggregate ("select '" +:+ "discount(" +:+ "' from t") = true.
Proof. apply is_aggregate_anywhere. reflexivity. Defined.

(** X16: the limit rule asks for the letters [limit] and no more.  A query
    that the first four rules let through and whose lowered text holds
    [limit] anywhere, in a column name for one, is accepted. *)
Theorem limit_anywhere_suffices (sql : string) (schema : schema_t) :
  passes_first_four sql schema ->
  (exists pre post, lower sql = pre +:+ "limit" +:+ post) ->
  validate_sql sql schema = Some (true, "").
Proof.
  intros (H1 & H2 & H3 & H4)%passes_first_four_inv Hsub%str_in_spec.
  rewrite validate_sql_eq. unfold verdict. rewrite H1, H2, H3, H4, Hsub.
  now rewrite andb_false_r.
Qed.

Lemma limit_anywhere_suffices_witness :
  validate_sql "select speed_limit from london_bike_data" SCHEMA = Some (true, "").
Proof.
  apply limit_anywhere_suffices.
  - apply passes_first_four_intro; reflexivity.
  - exists "select speed_", " from london_bike_data". reflexivity.
Defined.

(** ** The snapshot and the allowlist *)

Lemma dict_of_rows_from (rows : list (string * string)) (d : gmap string string)
    (c ty : string) :
  fold_left (fun d row => <[fst row := snd row]> d) rows d !! c = Some ty ->
  d !! c = Some ty \/ In (c, ty) rows.
Proof.
  revert d. induction rows as [|[c' ty'] rows IH]; intros d; simpl; [tauto|].
  intros [H|H]%IH; [|tauto].
  destruct (decide (c' = c)) as [->|Hne].
  - rewrite lookup_insert_eq in H. injection H as <-. tauto.
  - rewrite lookup_insert_ne in H by exact Hne. tauto.
Qed.

Section SnapshotFacts.

Variable table_count : string -> nat.
Variable table_columns : string -> list (string * string).

Lemma snapshot_loop_keys (tables : list string) (snapshot : schema_t) (t : string) :
  is_Some (Snapshot.snapshot_loop table_count table_columns tables snapshot !! t) <->
  is_Some (snapshot !! t) \/ (In t tables /\ table_count t <> 0).
Proof.
  revert snapshot. induction tables as [|table tables IH]; intros snapshot; simpl.
  - tauto.
  - destruct (table_count table =? 0)%nat eqn:E; rewrite IH.
    + apply Nat.eqb_eq in E. split; [tauto|].
      intros [H|[[<-|H] Hn]]; tauto.
    + apply Nat.eqb_neq in E. rewrite lookup_insert_is_Some. split.
      * intros [[<-|[_ H]]|[H Hn]]; tauto.
      * intros [H|[[<-|H] Hn]]; [|tauto..].
        destruct (decide (table = t)); tauto.
Qed.

Lemma snapshot_loop_value (tables : list string) (snapshot : schema_t)
    (t : string) (cols : gmap string string) :
  Snapshot.snapshot_loop table_count table_columns tables snapshot !! t = Some cols ->
  snapshot !! t = Some cols \/ cols = Snapshot.dict_of_rows (table_columns t).
Proof.
  revert snapshot. induction tables as [|table tables IH]; intros snapshot; simpl.
  - tauto.
  - destruct (table_count table =? 0)%nat; [apply IH|].
    intros [H|H]%IH; [|now right].
    destruct (decide (table = t)) as [->|Hne].
    + rewrite lookup_insert_eq in H. injection H as <-. now right.
    + rewrite lookup_insert_ne in H by exact Hne. now left.
Qed.

End SnapshotFacts.

(** X17: the snapshot lists exactly the allowed tables that the catalog
    knows, and nothing else; each column it records for a table, with its
    type, is a row the catalog returned for that table. *)
Theorem snapshot_holds_allowed_tables_only
    (table_count : string -> nat) (table_columns : string -> list (string * string)) :
  (forall t,
      is_Some (Snapshot.get_schema_snapshot table_count table_columns !! t)
      <-> In t ALLOWED_TABLES /\ table_count t <> 0) /\
  (forall t cols c ty,
      Snapshot.get_schema_snapshot table_count table_columns !! t = Some cols ->
      cols !! c = Some ty -> In (c, ty) (table_columns t)).
Proof.
  unfold Snapshot.get_schema_snapshot. split.
  - intros t. rewrite snapshot_loop_keys, lookup_empty.
    split; [intros [[x Hx]|H]; [discriminate | exact H] | now right].
  - intros t cols c ty [H|Hcols]%snapshot_loop_value; [now rewrite lookup_empty in H|].
    subst cols. unfold Snapshot.dict_of_rows.
    intros Hc. apply dict_of_rows_from in Hc as [H|H].
    + now rewrite lookup_empty in H.
    + exact H.
Qed.

(** A catalog that knows two of the allowed tables and one other table. *)
Definition catalog_count (t : string) : nat :=
  if String.eqb t "london_bike_data" then 1
  else if String.eqb t "nyc_biking_data" then 1
  else if String.eqb t "staging_journey_data" then 1
  else 0.

Definition catalog_columns (t : string) : list (string * string) :=
  if String.eqb t "london_bike_data"
  then [("start_date", "TIMESTAMP"); ("start_station_name", "VARCHAR")]
  else [("start_time", "TIMESTAMP")].

Lemma snapshot_holds_allowed_tables_only_witness :
  In "london_bike_data" ALLOWED_TABLES /\ catalog_count "london_bike_data" <> 0.
Proof.
  apply (proj1 (snapshot_holds_allowed_tables_only catalog_count catalog_columns)
           "london_bike_data").
  eexists. reflexivity.
Defined.
